(** * May: the memory-and-response pipeline of [core/memory_database.py]

    A shallow embedding of [MayConversationalAI]: the keyword-based signal
    extractor, the importance scorer, the memory retriever, the response
    composer, the persistence of a turn and of the profile, and the
    orchestrator [chat_with_may].

    Python text is a sequence of Unicode code points; the store, the
    clock, the [random] module and the logger are threaded through a
    state-and-exception monad. *)

From Stdlib Require Import String Ascii DecimalString.
From Stdlib Require Import List ZArith NArith QArith Bool Lia.
From Stdlib Require Import Sorted Permutation.
Import ListNotations.

Local Open Scope Z_scope.

(** ** Python [str] *)

Module Py.

(** A character is its code point, a [str] the list of its characters. *)
Definition char := N.
Definition str := list char.

(** A literal of the source; every literal of the modelled code is ASCII. *)
Definition lit (s : string) : str :=
  List.map N_of_ascii (list_ascii_of_string s).

Fixpoint str_eqb (a b : str) : bool :=
  match a, b with
  | [], [] => true
  | c :: a', d :: b' => N.eqb c d && str_eqb a' b'
  | _, _ => false
  end.

(** [x in xs] for a list of strings. *)
Definition mem (x : str) (xs : list str) : bool := existsb (str_eqb x) xs.

(** [s.startswith(p)]. *)
Fixpoint startswith (p s : str) : bool :=
  match p, s with
  | [], _ => true
  | _ :: _, [] => false
  | c :: p', d :: s' => N.eqb c d && startswith p' s'
  end.

(** [sub in s]: [sub] occurs in [s] at some offset. *)
Fixpoint contains (sub s : str) : bool :=
  startswith sub s ||
  match s with
  | [] => false
  | _ :: s' => contains sub s'
  end.

(** The characters [str.split()] and [str.strip()] treat as white space
    ([Py_UNICODE_ISSPACE]). *)
Definition isspace (c : char) : bool :=
  let c := Z.of_N c in
  ((9 <=? c) && (c <=? 13)) || ((28 <=? c) && (c <=? 32)) ||
  (c =? 133) || (c =? 160) || (c =? 5760) ||
  ((8192 <=? c) && (c <=? 8202)) ||
  (c =? 8232) || (c =? 8233) || (c =? 8239) || (c =? 8287) || (c =? 12288).

(** [s.split()]: the maximal runs of characters that are not white space.
    [cur] is the run being read, most recent character first. *)
Fixpoint split_from (cur : str) (s : str) : list str :=
  match s with
  | [] => match cur with [] => [] | _ => [rev cur] end
  | c :: s' =>
      if isspace c
      then match cur with
           | [] => split_from [] s'
           | _ => rev cur :: split_from [] s'
           end
      else split_from (c :: cur) s'
  end.

Definition split (s : str) : list str := split_from [] s.

Fixpoint lstrip (s : str) : str :=
  match s with
  | c :: s' => if isspace c then lstrip s' else s
  | [] => []
  end.

(** [s.strip()]. *)
Definition strip (s : str) : str := rev (lstrip (rev (lstrip s))).

(** [sep.join(parts)]. *)
Fixpoint join (sep : str) (parts : list str) : str :=
  match parts with
  | [] => []
  | [p] => p
  | p :: rest => p ++ sep ++ join sep rest
  end.

(** [str(n)] for an integer. *)
Definition str_of_int (n : Z) : str := lit (NilEmpty.string_of_int (Z.to_int n)).

Definition is_ascii (c : char) : bool := (c <? 128)%N.

Definition ascii_lower_char (c : char) : char :=
  if ((65 <=? c) && (c <=? 90))%N then (c + 32)%N else c.

(** The lower-casing of ASCII text, also the case folding of SQLite's
    [LIKE]: only [A]..[Z] change. *)
Definition ascii_lower (s : str) : str := List.map ascii_lower_char s.

(** [s.lower()].  On ASCII text it maps [A]..[Z] to [a]..[z] character by
    character; text with other characters goes through the Unicode case
    tables, which are not reproduced: [unicode_lower] stands for them. *)
Definition lower (unicode_lower : str -> str) (s : str) : str :=
  if forallb is_ascii s then ascii_lower s else unicode_lower s.

(** [s.encode()]: UTF-8; a surrogate code point cannot be encoded. *)
Definition utf8_char (c : char) : option (list N) :=
  (if c <? 128 then Some [c]
   else if c <? 2048 then Some [192 + c / 64; 128 + c mod 64]
   else if (55296 <=? c) && (c <=? 57343) then None
   else if c <? 65536 then
     Some [224 + c / 4096; 128 + (c / 64) mod 64; 128 + c mod 64]
   else
     Some [240 + c / 262144; 128 + (c / 4096) mod 64;
           128 + (c / 64) mod 64; 128 + c mod 64])%N.

Fixpoint encode (s : str) : option (list N) :=
  match s with
  | [] => Some []
  | c :: s' =>
      match utf8_char c, encode s' with
      | Some bs, Some rest => Some (bs ++ rest)
      | _, _ => None
      end
  end.

End Py.

Import Py.

(** ** JSON text and SQL operators *)

Module Sql.

Definition hex_digit (n : N) : char :=
  (if n <? 10 then 48 + n else 87 + n)%N.

Definition hex4 (n : N) : str :=
  [hex_digit ((n / 4096) mod 16); hex_digit ((n / 256) mod 16);
   hex_digit ((n / 16) mod 16); hex_digit (n mod 16)]%N.

(** One character inside a JSON string, as [json.dumps] writes it
    ([ensure_ascii] is on): the short escapes, the printable ASCII
    characters as they are, everything else as [\uXXXX]. *)
Definition json_escape (c : char) : str :=
  (if c =? 34 then [92; 34]
   else if c =? 92 then [92; 92]
   else if c =? 10 then [92; 110]
   else if c =? 13 then [92; 114]
   else if c =? 9 then [92; 116]
   else if c =? 8 then [92; 98]
   else if c =? 12 then [92; 102]
   else if (32 <=? c) && (c <=? 126) then [c]
   else if c <? 65536 then [92; 117] ++ hex4 c
   else [92; 117] ++ hex4 (55296 + (c - 65536) / 1024) ++
        [92; 117] ++ hex4 (56320 + (c - 65536) mod 1024))%N.

Definition json_dumps_str (s : str) : str :=
  [34%N] ++ flat_map json_escape s ++ [34%N].

(** [json.dumps(xs)] for a list of strings. *)
Definition json_dumps (xs : list str) : str :=
  lit "[" ++ join (lit ", ") (List.map json_dumps_str xs) ++ lit "]".

(** [text LIKE '%needle%'] for a needle without [%] and [_]: SQLite's
    [LIKE] ignores the case of ASCII letters. *)
Definition like_contains (needle text : str) : bool :=
  contains (ascii_lower needle) (ascii_lower text).

(** The values of SQLite's INTEGER: the signed 64-bit integers. *)
Definition integer (n : Z) : bool := (- 2 ^ 63 <=? n) && (n <? 2 ^ 63).

(** [LIMIT n]: a negative [n] puts no bound on the number of rows. *)
Definition limit {A} (n : Z) (rows : list A) : list A :=
  if n <? 0 then rows else firstn (Z.to_nat n) rows.

(** [ORDER BY]: [before a b] says that [a] may come before [b]; rows that
    compare equal keep the order of the table. *)
Fixpoint insert_row {A} (before : A -> A -> bool) (a : A) (rows : list A)
  : list A :=
  match rows with
  | [] => [a]
  | b :: rest =>
      if before a b then a :: b :: rest else b :: insert_row before a rest
  end.

Definition order_by {A} (before : A -> A -> bool) (rows : list A) : list A :=
  fold_right (insert_row before) [] rows.

End Sql.

(** ** SQLite's LIKE with wildcards *)

Module Like.

(** [text LIKE pattern] without an escape character: [%] stands for any
    run of characters, [_] for any one character, and another character
    for itself up to the case of ASCII letters. *)
Fixpoint like (pattern text : str) : bool :=
  match pattern with
  | [] => match text with [] => true | _ :: _ => false end
  | p :: pattern' =>
      if (p =? 37)%N then
        (fix skip (rest : str) : bool :=
           like pattern' rest ||
           match rest with
           | [] => false
           | _ :: rest' => skip rest'
           end) text
      else
        match text with
        | [] => false
        | c :: text' =>
            ((p =? 95)%N || (ascii_lower_char p =? ascii_lower_char c)%N) &&
            like pattern' text'
        end
  end.

Definition wildcard (c : char) : bool := ((c =? 37) || (c =? 95))%N.

(** The pattern [f"%{needle}%"]. *)
Definition around (needle : str) : str := [37%N] ++ needle ++ [37%N].

End Like.

(** ** Data model *)

(** A naive [datetime], counted in microseconds.  The store keeps it as
    its [isoformat()] text, whose order as text is the order in time. *)
Definition datetime := Z.

Definition microseconds_per_day : Z := 86400000000.

(** [(a - b).days]. *)
Definition days_between (a b : datetime) : Z := (a - b) / microseconds_per_day.

(** The dataclass [ConversationMemory]; a row of the table [conversations]
    has the same fields.  [context_tags] is kept as the list whose
    [json.dumps] text the column holds; [referenced_memories] is [None]
    where the column is NULL. *)
Record ConversationMemory := {
  id : str;
  user_message : str;
  may_response : str;
  topic : str;
  sentiment : str;
  importance : Z;
  timestamp : datetime;
  context_tags : list str;
  referenced_memories : option (list str)
}.

(** The dataclass [UserProfile]; a row of the table [user_profile] has the
    same fields. *)
Record UserProfile := {
  name : str;
  interests : list str;
  values : list str;
  conversation_patterns : list (str * Z);
  last_interaction : datetime;
  relationship_level : Z
}.

(** Exceptions, all of them subclasses of [Exception]. *)
Inductive exn :=
| SqliteError (msg : str)
| IntegrityError (msg : str)
| UnicodeEncodeError (object : str)
| IndexError (msg : str)
| OverflowError (msg : str).

Inductive level := INFO | ERROR.

(** A Python [float], as the rational it denotes. *)
Definition float := Q.

Definition float_lt (a b : float) : bool :=
  (Qnum a * Zpos (Qden b) <? Qnum b * Zpos (Qden a))%Z.

(** The literals [0.4] and [0.3] as doubles. *)
Definition float_0_4 : float := 3602879701896397 # 9007199254740992.
Definition float_0_3 : float := 5404319552844595 # 18014398509481984.

(** The state the program runs in.  [user_profile] is the attribute
    [self.user_profile]; [clock] holds the coming results of
    [datetime.now()], [random_floats] those of [random.random()],
    [random_indices] the indices [random.choice] will draw, and [faults]
    says, for each coming SQL statement, whether sqlite3 raises on it
    (when the list is used up, none does). *)
Record World := mkWorld {
  conversations : list ConversationMemory;
  user_profile_table : list UserProfile;
  user_profile : option UserProfile;
  log : list (level * str);
  clock : nat -> datetime;
  random_floats : nat -> float;
  random_indices : nat -> nat;
  faults : list (option exn)
}.

Definition tail_of {A} (s : nat -> A) : nat -> A := fun n => s (S n).

(** ** Exceptions and state *)

Inductive result (A : Type) :=
| Ok (a : A)
| Raise (e : exn).
Arguments Ok {A} a.
Arguments Raise {A} e.

Definition M (A : Type) : Type := World -> result A * World.

Definition ret {A} (a : A) : M A := fun w => (Ok a, w).

Definition raise {A} (e : exn) : M A := fun w => (Raise e, w).

Definition bind {A B} (m : M A) (k : A -> M B) : M B :=
  fun w =>
    match m w with
    | (Ok a, w') => k a w'
    | (Raise e, w') => (Raise e, w')
    end.

(** [try: m except Exception as e: handler e]. *)
Definition try_except {A} (m : M A) (handler : exn -> M A) : M A :=
  fun w =>
    match m w with
    | (Ok a, w') => (Ok a, w')
    | (Raise e, w') => handler e w'
    end.

Notation "x <- m ;; k" := (bind m (fun x => k))
  (at level 61, m at next level, right associativity).
Notation "m ;;; k" := (bind m (fun _ => k))
  (at level 61, right associativity).

(** [for x in xs: acc = body acc x]. *)
Fixpoint for_fold {A B} (xs : list A) (acc : B) (body : B -> A -> M B) : M B :=
  match xs with
  | [] => ret acc
  | x :: rest => acc' <- body acc x ;; for_fold rest acc' body
  end.

(** [for x in xs: body x]. *)
Fixpoint for_each {A} (xs : list A) (body : A -> M unit) : M unit :=
  match xs with
  | [] => ret tt
  | x :: rest => body x ;;; for_each rest body
  end.

(** ** The environment: clock, [random], logger, sqlite3 *)

(** [datetime.now()]. *)
Definition datetime_now : M datetime :=
  fun w =>
    (Ok (clock w 0%nat),
     mkWorld (conversations w) (user_profile_table w) (user_profile w) (log w)
             (tail_of (clock w)) (random_floats w) (random_indices w)
             (faults w)).

(** [random.random()]. *)
Definition random_random : M float :=
  fun w =>
    (Ok (random_floats w 0%nat),
     mkWorld (conversations w) (user_profile_table w) (user_profile w) (log w)
             (clock w) (tail_of (random_floats w)) (random_indices w)
             (faults w)).

(** [random.choice(seq)]: the element at an index below [len(seq)]. *)
Definition random_choice (seq : list str) : M str :=
  fun w =>
    match seq with
    | [] => (Raise (IndexError (lit "Cannot choose from an empty sequence")), w)
    | _ :: _ =>
        (Ok (nth (random_indices w 0%nat mod length seq)%nat seq []),
         mkWorld (conversations w) (user_profile_table w) (user_profile w)
                 (log w) (clock w) (random_floats w)
                 (tail_of (random_indices w)) (faults w))
    end.

(** [logger.info] and [logger.error]: the logger is set to level INFO. *)
Definition logger (lvl : level) (text : str) : M unit :=
  fun w =>
    (Ok tt,
     mkWorld (conversations w) (user_profile_table w) (user_profile w)
             (log w ++ [(lvl, text)])
             (clock w) (random_floats w) (random_indices w) (faults w)).

(** One SQL statement on a fresh connection, or the opening of a
    connection when the statement after it does not parse: sqlite3 raises
    when the coming entry of [faults] says so. *)
Definition sql_statement : M unit :=
  fun w =>
    match faults w with
    | [] => (Ok tt, w)
    | fault :: rest =>
        let w' := mkWorld (conversations w) (user_profile_table w)
                          (user_profile w) (log w) (clock w)
                          (random_floats w) (random_indices w) rest in
        match fault with
        | None => (Ok tt, w')
        | Some e => (Raise e, w')
        end
    end.

(** Binding a Python [int] to a parameter of a statement: sqlite3 raises
    when the value is no signed 64-bit integer. *)
Definition bind_int (n : Z) : M unit :=
  if Sql.integer n then ret tt
  else raise (OverflowError
                (lit "Python int too large to convert to SQLite INTEGER")).

(** Binding a [str] to a parameter: it is encoded as UTF-8. *)
Definition bind_str (s : str) : M unit :=
  match encode s with
  | Some _ => ret tt
  | None => raise (UnicodeEncodeError s)
  end.

(** The error of sqlite3 on a statement that names the column [values]
    without quotes: [VALUES] is a reserved word. *)
Definition syntax_error_near_values : exn :=
  SqliteError (lit "near " ++ [34%N] ++ lit "values" ++ [34%N] ++
               lit ": syntax error").

Definition get_conversations : M (list ConversationMemory) :=
  fun w => (Ok (conversations w), w).

Definition set_conversations (rows : list ConversationMemory) : M unit :=
  fun w =>
    (Ok tt,
     mkWorld rows (user_profile_table w) (user_profile w) (log w) (clock w)
             (random_floats w) (random_indices w) (faults w)).

Definition get_user_profile_table : M (list UserProfile) :=
  fun w => (Ok (user_profile_table w), w).

(** Reading and writing the attribute [self.user_profile]. *)
Definition get_user_profile : M (option UserProfile) :=
  fun w => (Ok (user_profile w), w).

Definition set_user_profile (p : option UserProfile) : M unit :=
  fun w =>
    (Ok tt,
     mkWorld (conversations w) (user_profile_table w) p (log w) (clock w)
             (random_floats w) (random_indices w) (faults w)).

(** A change made in place to the object [self.user_profile] refers to. *)
Definition modify_user_profile (f : UserProfile -> UserProfile) : M unit :=
  p <- get_user_profile ;; set_user_profile (option_map f p).

(** [str(e)]. *)
Definition is_surrogate (c : char) : bool :=
  ((55296 <=? c) && (c <=? 57343))%N.

Fixpoint surrogate_run (s : str) : nat :=
  match s with
  | c :: s' => if is_surrogate c then S (surrogate_run s') else 0%nat
  | [] => 0%nat
  end.

Fixpoint first_surrogate (pos : nat) (s : str) : option (nat * char * nat) :=
  match s with
  | [] => None
  | c :: s' =>
      if is_surrogate c then Some (pos, c, surrogate_run s)
      else first_surrogate (S pos) s'
  end.

Definition exn_str (e : exn) : str :=
  match e with
  | SqliteError msg => msg
  | IntegrityError msg => msg
  | IndexError msg => msg
  | OverflowError msg => msg
  | UnicodeEncodeError object =>
      match first_surrogate 0 object with
      | Some (pos, c, 1%nat) =>
          lit "'utf-8' codec can't encode character '\u" ++ Sql.hex4 c ++
          lit "' in position " ++ str_of_int (Z.of_nat pos) ++
          lit ": surrogates not allowed"
      | Some (pos, _, n) =>
          lit "'utf-8' codec can't encode characters in position " ++
          str_of_int (Z.of_nat pos) ++ lit "-" ++
          str_of_int (Z.of_nat (pos + n - 1)) ++
          lit ": surrogates not allowed"
      | None => []
      end
  end.

(** [l[:n]]: a negative [n] counts from the end. *)
Definition slice_to {A} (n : Z) (l : list A) : list A :=
  if n <? 0 then firstn (Z.to_nat (Z.of_nat (length l) + n)) l
  else firstn (Z.to_nat n) l.

(** ** Vocabulary of the specification *)

Module Spec.

Definition clamp (lo hi x : Z) : Z := Z.min hi (Z.max lo x).

(** The number of words of a text: the positions at which a character
    that is not white space follows white space or starts the text. *)
Fixpoint word_starts (after_space : bool) (s : str) : nat :=
  match s with
  | [] => 0
  | c :: s' =>
      if isspace c then word_starts true s'
      else (if after_space then 1 else 0) + word_starts false s'
  end%nat.

Definition word_count (s : str) : nat := word_starts true s.

(** How many of the words occur in the text at least once. *)
Definition present (words : list str) (text : str) : Z :=
  Z.of_nat (length (filter (fun word => contains word text) words)).

(** The number of offsets of the text at which the word occurs. *)
Fixpoint occurrences (word text : str) : Z :=
  (if startswith word text then 1 else 0) +
  match text with
  | [] => 0
  | _ :: text' => occurrences word text'
  end.

(** The occurrences of all the words of a list, added up. *)
Definition total_occurrences (words : list str) (text : str) : Z :=
  fold_right Z.add 0 (List.map (fun word => occurrences word text) words).

End Spec.

(** ** Sample environments

    Instances of the library functions and a few states, for evaluating
    the program on concrete inputs. *)

Module Sample.

(** [str.lower] on text whose characters outside ASCII have no case: only
    [A]..[Z] change. *)
Definition unicode_lower (s : str) : str := ascii_lower s.

(** A stand-in for the digest: 64 hexadecimal digits read off the bytes. *)
Definition hexdigest (bytes : list N) : str :=
  firstn 64 (List.map (fun b => Sql.hex_digit (b mod 16)%N) bytes ++
             repeat 48%N 64).

(** A stand-in for [str(d)]: the count of microseconds in decimal. *)
Definition datetime_str (d : datetime) : string :=
  NilEmpty.string_of_int (Z.to_int d).

Definition day (n : Z) : datetime := n * microseconds_per_day.

Definition profile : UserProfile :=
  {| name := lit "kim"; interests := [lit "work"]; values := [];
     conversation_patterns := []; last_interaction := day 0;
     relationship_level := 1 |}.

Definition turn (ident label : string) (score : Z) (at_ : datetime)
  : ConversationMemory :=
  {| id := lit ident; user_message := lit "hello"; may_response := lit "hi";
     topic := lit label; sentiment := lit "neutral"; importance := score;
     timestamp := at_; context_tags := [lit label];
     referenced_memories := None |}.

(** A state with the given rows, draws and faults and a loaded profile;
    the clock starts at [start] and advances by a second per reading. *)
Definition world_at (start : datetime)
    (rows : list ConversationMemory) (draws : list float)
    (indices : list nat) (failing : list (option exn)) : World :=
  mkWorld rows [] (Some profile) []
          (fun n => start + 1000000 * Z.of_nat n)
          (fun n => nth n draws (1 # 2))
          (fun n => nth n indices 0%nat)
          failing.

Definition world := world_at (day 10).

(** The same state with no profile loaded. *)
Definition unloaded (w : World) : World :=
  mkWorld (conversations w) (user_profile_table w) None (log w)
          (clock w) (random_floats w) (random_indices w) (faults w).

End Sample.

(** ** The program *)

Section May.

(** Library functions the program calls and this development does not
    reproduce: the Unicode case tables behind [str.lower],
    [hashlib.sha256(bytes).hexdigest()], and [str(d)] for a [datetime],
    a text of ASCII digits and punctuation. *)
Variable unicode_lower : str -> str.
Variable sha256_hexdigest : list N -> str.
Variable datetime_str : datetime -> string.

Set Default Proof Using "Type".

(** *** Signal extractor *)

(** [sum(1 for word in words if word in text)]. *)
Definition sum_present (words : list str) (text : str) : Z :=
  fold_left (fun total word => if contains word text then total + 1 else total)
            words 0.

Definition positive_words : list str :=
  [lit "happy"; lit "good"; lit "great"; lit "love"; lit "wonderful";
   lit "excited"; lit "amazing"].

Definition negative_words : list str :=
  [lit "sad"; lit "bad"; lit "terrible"; lit "hate"; lit "awful";
   lit "angry"; lit "frustrated"].

Definition analyze_message_sentiment (message : str) : str :=
  let message_lower := lower unicode_lower message in
  let pos_count := sum_present positive_words message_lower in
  let neg_count := sum_present negative_words message_lower in
  if neg_count <? pos_count then lit "positive"
  else if pos_count <? neg_count then lit "negative"
  else lit "neutral".

(** The dict [topic_keywords]; a dict iterates in insertion order. *)
Definition topic_keywords : list (str * list str) :=
  [ (lit "family", [lit "family"; lit "mom"; lit "dad"; lit "sister";
                    lit "brother"; lit "parent"; lit "child"]);
    (lit "work", [lit "job"; lit "work"; lit "career"; lit "boss";
                  lit "colleague"; lit "project"]);
    (lit "learning", [lit "learn"; lit "study"; lit "school";
                      lit "education"; lit "knowledge"]);
    (lit "faith", [lit "god"; lit "prayer"; lit "faith"; lit "belief";
                   lit "church"; lit "spiritual"]);
    (lit "relationships", [lit "friend"; lit "relationship"; lit "love";
                           lit "dating"; lit "marriage"]);
    (lit "health", [lit "health"; lit "sick"; lit "doctor"; lit "exercise";
                    lit "wellness"]) ].

Definition extract_topics (message : str) : list str :=
  let message_lower := lower unicode_lower message in
  let topics :=
    fold_left
      (fun topics item =>
         let '(topic, keywords) := item in
         if existsb (fun keyword => contains keyword message_lower) keywords
         then topics ++ [topic]
         else topics)
      topic_keywords [] in
  match topics with
  | [] => [lit "general"]
  | _ => topics
  end.

(** *** Importance scorer *)

Definition personal_topics : list str :=
  [lit "family"; lit "faith"; lit "relationships"; lit "health"].

(** The value of [importance] when the [return] is reached. *)
Definition importance_before_clamp
    (message : str) (topics : list str) (sentiment : str) : Z :=
  let importance := 5 in
  let importance :=
    if mem sentiment [lit "positive"; lit "negative"]
    then importance + 2 else importance in
  let importance :=
    if existsb (fun topic => mem topic personal_topics) topics
    then importance + 2 else importance in
  let importance :=
    if contains (lit "?") message then importance + 1 else importance in
  let importance :=
    if 20 <? Z.of_nat (length (split message))
    then importance + 1 else importance in
  importance.

Definition calculate_importance
    (message : str) (topics : list str) (sentiment : str) : Z :=
  Z.min 10 (Z.max 1 (importance_before_clamp message topics sentiment)).

(** *** Memory retriever *)

(** [WHERE topic = ? OR context_tags LIKE ?] with [(label, '%label%')]. *)
Definition row_matches (label : str) (row : ConversationMemory) : bool :=
  str_eqb (topic row) label ||
  Sql.like_contains label (Sql.json_dumps (context_tags row)).

(** [ORDER BY importance DESC, timestamp DESC]. *)
Definition row_before (a b : ConversationMemory) : bool :=
  (importance b <? importance a) ||
  ((importance a =? importance b) && (timestamp b <=? timestamp a)).

(** The rows the [SELECT] of [find_relevant_memories] yields. *)
Definition select_rows (label : str) (limit : Z)
    (rows : list ConversationMemory) : list ConversationMemory :=
  Sql.limit limit (Sql.order_by row_before (filter (row_matches label) rows)).

(** One [cursor.execute] of the loop: the statement is prepared, where
    sqlite3 may raise, and its parameters are bound, the label and the
    pattern (ASCII text, which encodes) and then the limit. *)
Definition select_by_topic (label : str) (limit : Z)
  : M (list ConversationMemory) :=
  sql_statement ;;;
  bind_int limit ;;;
  rows <- get_conversations ;;
  ret (select_rows label limit rows).

(** A fetched row as a [ConversationMemory]: a NULL [referenced_memories]
    reads as the empty list. *)
Definition memory_of_row (row : ConversationMemory) : ConversationMemory :=
  {| id := id row;
     user_message := user_message row;
     may_response := may_response row;
     topic := topic row;
     sentiment := sentiment row;
     importance := importance row;
     timestamp := timestamp row;
     context_tags := context_tags row;
     referenced_memories :=
       Some (match referenced_memories row with Some l => l | None => [] end) |}.

Definition find_relevant_memories (message : str) (limit : Z)
  : M (list ConversationMemory) :=
  let topics := extract_topics message in
  relevant_memories <-
    for_fold topics []
      (fun relevant_memories label =>
         rows <- select_by_topic label limit ;;
         ret (fold_left (fun memories row => memories ++ [memory_of_row row])
                        rows relevant_memories)) ;;
  ret (slice_to limit relevant_memories).

(** *** Response composer *)

Definition responses_by_topic : list (str * list str) :=
  [ (lit "family",
     [lit "Family is such a blessing. How has your family been doing?";
      lit "There's nothing quite like the bond of family. What's been on your heart about them?";
      lit "Family relationships can be both wonderful and challenging. I'm here to listen."]);
    (lit "faith",
     [lit "Faith can be such a source of strength and guidance. What's been stirring in your spirit?";
      lit "I believe there's great wisdom in seeking something greater than ourselves. How has that been for you?";
      lit "Prayer and reflection can bring such peace. What's been in your prayers lately?"]);
    (lit "work",
     [lit "Work can be fulfilling when it aligns with our values. How are you feeling about your current path?";
      lit "It's important to find purpose in what we do. What gives you satisfaction in your work?";
      lit "Balancing work with the rest of life is so important. How are you managing that?"]);
    (lit "learning",
     [lit "I love that you're always growing and learning! What's captured your curiosity lately?";
      lit "Knowledge is such a gift. What new insights have you discovered?";
      lit "Learning together makes the journey so much richer. What would you like to explore?"]) ].

Definition general_responses : list str :=
  [lit "I'm really interested to hear more about this. What's been on your mind?";
   lit "That sounds meaningful to you. Could you tell me more?";
   lit "I appreciate you sharing that with me. How are you feeling about it?"].

Definition supportive_starters : list str :=
  [lit "I can sense this is weighing on you. ";
   lit "That sounds challenging. ";
   lit "I'm sorry you're going through this. "].

Definition encouraging_starters : list str :=
  [lit "It's wonderful to hear the joy in your words! ";
   lit "That sounds really positive! ";
   lit "I love your enthusiasm about this! "].

Definition sparks : list str :=
  [lit "Have you considered how this connects to your long-term goals?";
   lit "What would you tell a close friend who was in a similar situation?";
   lit "I'm curious about what this means for your future plans.";
   lit "What aspects of this situation are you most grateful for?";
   lit "How does this align with what's most important to you?";
   lit "What wisdom would you want to pass on about this experience?"].

(** [d[key]] guarded by [key in d]. *)
Fixpoint lookup (key : str) (d : list (str * list str)) : option (list str) :=
  match d with
  | [] => None
  | (k, v) :: rest => if str_eqb k key then Some v else lookup key rest
  end.

Definition generate_core_response
    (message : str) (sentiment : str) (topics : list str) : M str :=
  let primary_topic :=
    match topics with t :: _ => t | [] => lit "general" end in
  let base_responses :=
    match lookup primary_topic responses_by_topic with
    | Some responses => responses
    | None => general_responses
    end in
  if str_eqb sentiment (lit "negative") then
    starter <- random_choice supportive_starters ;;
    base <- random_choice base_responses ;;
    ret (starter ++ base)
  else if str_eqb sentiment (lit "positive") then
    starter <- random_choice encouraging_starters ;;
    base <- random_choice base_responses ;;
    ret (starter ++ base)
  else random_choice base_responses.

Definition generate_conversation_spark (topics : list str) : M str :=
  random_choice sparks.

Definition time_reference (days_ago : Z) : str :=
  if days_ago =? 0 then lit "earlier today"
  else if days_ago =? 1 then lit "yesterday"
  else if days_ago <? 7 then str_of_int days_ago ++ lit " days ago"
  else lit "recently".

Definition generate_thoughtful_response (user_message : str) : M str :=
  relevant_memories <- find_relevant_memories user_message 3 ;;
  let sentiment := analyze_message_sentiment user_message in
  let topics := extract_topics user_message in
  let response_parts := [] in
  response_parts <-
    match relevant_memories with
    | [] => ret response_parts
    | memory :: _ =>
        draw <- random_random ;;
        if float_lt draw float_0_4 then
          now <- datetime_now ;;
          let days_ago := days_between now (timestamp memory) in
          let time_ref := time_reference days_ago in
          ret (response_parts ++
               [lit "This reminds me of when you mentioned " ++ topic memory ++
                lit " " ++ time_ref ++ lit ". "])
        else ret response_parts
    end ;;
  core <- generate_core_response user_message sentiment topics ;;
  let response_parts := response_parts ++ [core] in
  draw <- random_random ;;
  response_parts <-
    (if float_lt draw float_0_3 then
       spark <- generate_conversation_spark topics ;;
       ret (response_parts ++ [spark])
     else ret response_parts) ;;
  ret (strip (join (lit " ") response_parts)).

(** *** Persistence *)

(** [INSERT INTO conversations]: [id] is the primary key of the table. *)
Definition insert_conversation (memory : ConversationMemory) : M unit :=
  sql_statement ;;;
  rows <- get_conversations ;;
  if existsb (fun row => str_eqb (id row) (id memory)) rows
  then raise (IntegrityError
                (lit "UNIQUE constraint failed: conversations.id"))
  else set_conversations (rows ++ [memory]).

Definition save_conversation (user_message may_response : str) : M unit :=
  let topics := extract_topics user_message in
  let sentiment := analyze_message_sentiment user_message in
  let importance := calculate_importance user_message topics sentiment in
  created <- datetime_now ;;
  let text := user_message ++ may_response ++ lit (datetime_str created) in
  digest <-
    match encode text with
    | Some bytes => ret (sha256_hexdigest bytes)
    | None => raise (UnicodeEncodeError text)
    end ;;
  stamped <- datetime_now ;;
  let memory :=
    {| id := firstn 16 digest;
       user_message := user_message;
       may_response := may_response;
       topic := match topics with t :: _ => t | [] => lit "general" end;
       sentiment := sentiment;
       importance := importance;
       timestamp := stamped;
       context_tags := topics;
       referenced_memories := None |} in
  insert_conversation memory ;;;
  logger INFO (lit "Saved conversation memory: " ++ topic memory ++
               lit " (importance: " ++ str_of_int importance ++ lit ")").

(** [save_user_profile]: [sqlite3.connect], where sqlite3 may raise, then
    [INSERT OR REPLACE INTO user_profile (name, interests, values, ...)].
    The column list names [values] without quotes, so the statement does
    not parse: sqlite3 raises on every call and no row is written. *)
Definition save_user_profile (profile : UserProfile) : M unit :=
  sql_statement ;;;
  raise syntax_error_near_values.

(** *** Orchestrator *)

Definition apology : str :=
  lit "I'm sorry, I'm having trouble processing that right now. Could you try again?".

Definition set_last_interaction (now : datetime) (p : UserProfile)
  : UserProfile :=
  {| name := name p; interests := interests p; values := values p;
     conversation_patterns := conversation_patterns p;
     last_interaction := now;
     relationship_level := relationship_level p |}.

(** [if topic not in interests: interests.append(topic)]. *)
Definition add_interest (label : str) (p : UserProfile) : UserProfile :=
  if mem label (interests p) then p
  else {| name := name p; interests := interests p ++ [label];
          values := values p;
          conversation_patterns := conversation_patterns p;
          last_interaction := last_interaction p;
          relationship_level := relationship_level p |}.

(** The statement [if self.user_profile: ...] of [chat_with_may]. *)
Definition update_user_profile (user_message : str) : M unit :=
  loaded <- get_user_profile ;;
  match loaded with
  | Some _ =>
      now <- datetime_now ;;
      modify_user_profile (set_last_interaction now) ;;;
      let topics := extract_topics user_message in
      for_each topics (fun label => modify_user_profile (add_interest label)) ;;;
      current <- get_user_profile ;;
      match current with
      | Some profile => save_user_profile profile
      | None => ret tt
      end
  | None => ret tt
  end.

(** The body of the [try] statement of [chat_with_may]. *)
Definition chat_with_may_try (user_message : str) : M str :=
  response <- generate_thoughtful_response user_message ;;
  save_conversation user_message response ;;;
  update_user_profile user_message ;;;
  ret response.

Definition chat_with_may (user_message : str) : M str :=
  try_except
    (chat_with_may_try user_message)
    (fun e =>
       logger ERROR (lit "Error in chat: " ++ exn_str e) ;;;
       ret apology).

(** The state after a sequence of calls of [chat_with_may]. *)
Fixpoint chat_all (messages : list str) (w : World) : World :=
  match messages with
  | [] => w
  | message :: rest => chat_all rest (snd (chat_with_may message w))
  end.

(** *** Profile loading and construction *)

(** [load_user_profile]: the first row of [user_profile], if any.  The
    program itself never creates or fills that table; a row of the state
    stands for one with every column set, so the defaults for NULL columns
    do not arise. *)
Definition load_user_profile : M (option UserProfile) :=
  sql_statement ;;;
  rows <- get_user_profile_table ;;
  ret (match rows with
       | row :: _ => Some row
       | [] => None
       end).



(** *** The [/memories] endpoint *)

(** A value of the JSON object of a memory; a timestamp stands for its
    [isoformat()] text. *)
Inductive value :=
| VStr (s : str)
| VInt (n : Z)
| VTime (d : datetime).

Definition memory_dict (row : ConversationMemory) : list (str * value) :=
  [(lit "id", VStr (id row));
   (lit "user_message", VStr (user_message row));
   (lit "may_response", VStr (may_response row));
   (lit "topic", VStr (topic row));
   (lit "sentiment", VStr (sentiment row));
   (lit "importance", VInt (importance row));
   (lit "timestamp", VTime (timestamp row))].

(** [WHERE topic LIKE ? OR context_tags LIKE ?] with the pattern
    [f"%{label}%"] for both. *)
Definition topic_filter (label : str) (row : ConversationMemory) : bool :=
  Like.like (Like.around label) (topic row) ||
  Like.like (Like.around label) (Sql.json_dumps (context_tags row)).

(** [ORDER BY timestamp DESC]. *)
Definition newer_first (a b : ConversationMemory) : bool :=
  timestamp b <=? timestamp a.

(** [get_memories(topic, limit)]: [None] and the empty string are no
    filter.  The statement is prepared, where sqlite3 may raise, and its
    parameters are bound in order: the pattern, twice, and the limit. *)
Definition get_memories (topic : option str) (limit : Z)
  : M (list (list (str * value))) :=
  sql_statement ;;;
  match topic with
  | Some (c :: label) => bind_str (Like.around (c :: label))
  | _ => ret tt
  end ;;;
  bind_int limit ;;;
  rows <- get_conversations ;;
  let fetched :=
    match topic with
    | Some (c :: label) =>
        Sql.limit limit
          (Sql.order_by newer_first (filter (topic_filter (c :: label)) rows))
    | _ => Sql.limit limit (Sql.order_by newer_first rows)
    end in
  ret (fold_left (fun memories row => memories ++ [memory_dict row])
                 fetched []).

(** *** The specification's reading of the extractor *)

(** Sentiment as the specification words it: by counting the occurrences
    of the listed words. *)
Definition sentiment_by_occurrences (message : str) : str :=
  let text := lower unicode_lower message in
  let pos_count := Spec.total_occurrences positive_words text in
  let neg_count := Spec.total_occurrences negative_words text in
  if neg_count <? pos_count then lit "positive"
  else if pos_count <? neg_count then lit "negative"
  else lit "neutral".

(** The categories of the table with a keyword in the lower-cased message,
    in the order of the table. *)
Definition matching_topics (message : str) : list str :=
  List.map fst
    (filter (fun item =>
               existsb (fun keyword =>
                          contains keyword (lower unicode_lower message))
                       (snd item))
            topic_keywords).

(** *** Vocabulary for the statements about states *)

(** sqlite3 raises on none of the coming statements. *)
Definition healthy (w : World) : Prop :=
  Forall (fun fault => fault = None) (faults w).

(** A computation leaves a component of the state as it was. *)
Definition keeps {A X} (component : World -> X) (m : M A) : Prop :=
  forall w, component (snd (m w)) = component w.

(** The identifier of a turn as a function of the two texts and of the
    instant read for it: [None] when the text cannot be encoded. *)
Definition conversation_id (user_message may_response : str)
    (created : datetime) : option str :=
  option_map (fun bytes => firstn 16 (sha256_hexdigest bytes))
             (encode (user_message ++ may_response ++
                      lit (datetime_str created))).

(** The entry [logger.error] writes for an exception caught in
    [chat_with_may]. *)
Definition error_entry (e : exn) : level * str :=
  (ERROR, lit "Error in chat: " ++ exn_str e).

(** The interests after the loop of [chat_with_may] over the topics. *)
Definition add_interests (labels : list str) (p : UserProfile) : UserProfile :=
  fold_left (fun q label => add_interest label q) labels p.

(** The row [save_conversation] builds for a turn, given its identifier
    and the instant read for its timestamp. *)
Definition saved_row (user_message may_response ident : str)
    (stamped : datetime) : ConversationMemory :=
  let topics := extract_topics user_message in
  let sentiment := analyze_message_sentiment user_message in
  {| id := ident;
     user_message := user_message;
     may_response := may_response;
     topic := match topics with t :: _ => t | [] => lit "general" end;
     sentiment := sentiment;
     importance := calculate_importance user_message topics sentiment;
     timestamp := stamped;
     context_tags := topics;
     referenced_memories := None |}.

Definition unique_constraint_failed : exn :=
  IntegrityError (lit "UNIQUE constraint failed: conversations.id").

(** Two states hold the same store and give the same readings of the
    clock, the same results of [random] and the same faults. *)
Definition same_inputs (w1 w2 : World) : Prop :=
  conversations w1 = conversations w2 /\
  faults w1 = faults w2 /\
  (forall n, clock w1 n = clock w2 n) /\
  (forall n, random_floats w1 n = random_floats w2 n) /\
  (forall n, random_indices w1 n = random_indices w2 n).

(** A computation whose result is a function of those inputs. *)
Definition deterministic {A} (m : M A) : Prop :=
  forall w1 w2,
    same_inputs w1 w2 ->
    fst (m w1) = fst (m w2) /\ same_inputs (snd (m w1)) (snd (m w2)).

(** Every core clause [generate_core_response] can return: a template of
    a pool, alone or after one of the six openers. *)
Definition core_candidates : list str :=
  flat_map
    (fun pool =>
       pool ++
       flat_map (fun starter => List.map (fun base => starter ++ base) pool)
                (supportive_starters ++ encouraging_starters))
    (general_responses :: List.map snd responses_by_topic).

(** Every reply without a callback clause: a core clause, alone or
    followed by a spark. *)
Definition replies_without_callback : list str :=
  flat_map
    (fun core =>
       strip (join (lit " ") [core]) ::
       List.map (fun spark => strip (join (lit " ") [core; spark])) sparks)
    core_candidates.

(** The element [random.choice(seq)] returns on its [k]-th coming call. *)
Definition pick (indices : nat -> nat) (k : nat) (seq : list str) : str :=
  nth (indices k mod length seq)%nat seq [].

(** The reply as a function of the message, the retrieved history, the
    clock reading and the coming results of [random]: the callback uses a
    [random.random()] only when there is history, the core clause one
    [random.choice] for a neutral message and two otherwise, the spark the
    next [random.random()] and, when it is taken, the next
    [random.choice]. *)
Definition composed_reply (user_message : str)
    (history : list ConversationMemory) (now : datetime)
    (floats : nat -> float) (indices : nat -> nat) : str :=
  let sentiment := analyze_message_sentiment user_message in
  let topics := extract_topics user_message in
  let callback :=
    match history with
    | [] => []
    | memory :: _ =>
        if float_lt (floats 0%nat) float_0_4
        then [lit "This reminds me of when you mentioned " ++ topic memory ++
              lit " " ++
              time_reference (days_between now (timestamp memory)) ++
              lit ". "]
        else []
    end in
  let floats_used := match history with [] => 0%nat | _ :: _ => 1%nat end in
  let pool :=
    match lookup (match topics with t :: _ => t | [] => lit "general" end)
                 responses_by_topic with
    | Some responses => responses
    | None => general_responses
    end in
  let core :=
    if str_eqb sentiment (lit "negative")
    then pick indices 0 supportive_starters ++ pick indices 1 pool
    else if str_eqb sentiment (lit "positive")
    then pick indices 0 encouraging_starters ++ pick indices 1 pool
    else pick indices 0 pool in
  let indices_used :=
    if str_eqb sentiment (lit "negative") then 2%nat
    else if str_eqb sentiment (lit "positive") then 2%nat
    else 1%nat in
  let spark :=
    if float_lt (floats floats_used) float_0_3
    then [pick indices indices_used sparks]
    else [] in
  strip (join (lit " ") ((callback ++ [core]) ++ spark)).

(** A text that begins and ends with a character other than white space. *)
Definition trimmed (s : str) : bool :=
  match s, rev s with
  | c :: _, d :: _ => negb (isspace c) && negb (isspace d)
  | _, _ => false
  end.

(** What holds of every turn the program stores. *)
Definition turn_invariant (row : ConversationMemory) : Prop :=
  In (sentiment row) [lit "positive"; lit "negative"; lit "neutral"] /\
  5 <= importance row <= 10 /\
  NoDup (context_tags row) /\
  (forall label, In label (context_tags row) ->
     In label [lit "general"; lit "family"; lit "work"; lit "learning";
               lit "faith"; lit "relationships"; lit "health"]) /\
  hd_error (context_tags row) = Some (topic row) /\
  ascii_lower (Sql.json_dumps (context_tags row)) =
    Sql.json_dumps (context_tags row).

(** The entry [logger.info] writes when a turn is saved. *)
Definition saved_entry (user_message : str) : level * str :=
  let topics := extract_topics user_message in
  (INFO,
   lit "Saved conversation memory: " ++
   match topics with t :: _ => t | [] => lit "general" end ++
   lit " (importance: " ++
   str_of_int (calculate_importance user_message topics
                 (analyze_message_sentiment user_message)) ++
   lit ")").

(** ** Facts about text *)

Lemma str_eqb_eq (a b : str) : str_eqb a b = true <-> a = b.
Proof.
  revert b; induction a as [|c a IH]; intros [|d b]; simpl;
    try (split; [discriminate | discriminate]); try tauto.
  rewrite andb_true_iff, N.eqb_eq, IH.
  split; [intros [-> ->]; reflexivity | intros H; inversion H; auto].
Qed.

Lemma str_eqb_refl (a : str) : str_eqb a a = true.
Proof. apply str_eqb_eq; reflexivity. Qed.

Lemma str_eqb_neq (a b : str) : str_eqb a b = false <-> a <> b.
Proof.
  rewrite <- str_eqb_eq. destruct (str_eqb a b); split; congruence.
Qed.

Lemma mem_In (x : str) (xs : list str) : mem x xs = true <-> In x xs.
Proof.
  unfold mem. rewrite existsb_exists. split.
  - intros (y & Hy & E). apply str_eqb_eq in E. subst; assumption.
  - intros H. exists x. split; [assumption | apply str_eqb_refl].
Qed.

Lemma startswith_prefix (p s : str) :
  startswith p s = true <-> exists post, s = p ++ post.
Proof.
  revert s; induction p as [|c p IH]; intros s; simpl.
  - split; [intros _; exists s; reflexivity | reflexivity].
  - destruct s as [|d s].
    + split; [discriminate | intros (post & E); discriminate].
    + rewrite andb_true_iff, N.eqb_eq, IH. split.
      * intros (-> & post & ->). exists post. reflexivity.
      * intros (post & E). inversion E; subst. split; [reflexivity|].
        exists post; reflexivity.
Qed.

(** [sub in s] holds exactly when [s] is [pre ++ sub ++ post]. *)
Lemma contains_substring (sub s : str) :
  contains sub s = true <-> exists pre post, s = pre ++ sub ++ post.
Proof.
  induction s as [|c s IH].
  - simpl. rewrite orb_false_r, startswith_prefix. split.
    + intros (post & E). exists [], post. exact E.
    + intros (pre & post & E). exists post.
      destruct pre; [exact E | discriminate].
  - cbn [contains]. rewrite orb_true_iff, startswith_prefix, IH. split.
    + intros [(post & E) | (pre & post & E)].
      * exists [], post. exact E.
      * exists (c :: pre), post. rewrite E. reflexivity.
    + intros ([|d pre] & post & E).
      * left. exists post. exact E.
      * right. inversion E; subst. exists pre, post. reflexivity.
Qed.

Lemma contains_char (c : char) (s : str) : contains [c] s = true <-> In c s.
Proof.
  rewrite contains_substring. split.
  - intros (pre & post & ->). apply in_or_app. right. left. reflexivity.
  - intros H. apply in_split in H. destruct H as (pre & post & ->).
    exists pre, post. reflexivity.
Qed.

Lemma split_from_length (s cur : str) :
  length (split_from cur s) =
  match cur with
  | [] => Spec.word_starts true s
  | _ :: _ => S (Spec.word_starts false s)
  end.
Proof.
  revert cur; induction s as [|c s IH]; intros cur; simpl.
  - destruct cur; reflexivity.
  - destruct (isspace c).
    + destruct cur; simpl; rewrite IH; reflexivity.
    + rewrite IH. destruct cur; reflexivity.
Qed.

(** [len(s.split())] is the number of words of [s]. *)
Lemma split_length (s : str) : length (split s) = Spec.word_count s.
Proof. unfold split. rewrite split_from_length. reflexivity. Qed.

Lemma sum_present_from (words : list str) (text : str) (start : Z) :
  fold_left (fun total word => if contains word text then total + 1 else total)
            words start
  = start + Spec.present words text.
Proof.
  unfold Spec.present. revert start; induction words as [|w words IH];
    intros start; simpl.
  - lia.
  - rewrite IH. destruct (contains w text); simpl length; lia.
Qed.

Lemma sum_present_present (words : list str) (text : str) :
  sum_present words text = Spec.present words text.
Proof. unfold sum_present. rewrite sum_present_from. lia. Qed.

(** ** Importance scorer *)

Lemma importance_before_clamp_sum (message : str) (topics : list str)
    (sentiment : str) :
  importance_before_clamp message topics sentiment =
  5 + (if mem sentiment [lit "positive"; lit "negative"] then 2 else 0)
    + (if existsb (fun topic => mem topic personal_topics) topics
       then 2 else 0)
    + (if contains (lit "?") message then 1 else 0)
    + (if 20 <? Z.of_nat (length (split message)) then 1 else 0).
Proof.
  unfold importance_before_clamp.
  destruct (mem sentiment _), (existsb _ topics), (contains _ message),
    (20 <? _); reflexivity.
Qed.

Lemma importance_before_clamp_range (message : str) (topics : list str)
    (sentiment : str) :
  5 <= importance_before_clamp message topics sentiment <= 11.
Proof.
  rewrite importance_before_clamp_sum.
  destruct (mem sentiment _), (existsb _ topics), (contains _ message),
    (20 <? _); lia.
Qed.

(** C1: [calculate_importance] is the clamp to [1,10] of 5, plus 2 for a
    positive or negative sentiment, plus 2 when a topic is one of family,
    faith, relationships, health, plus 1 when the message holds a question
    mark, plus 1 when it has more than 20 words; so it lies in [1,10]; and
    the message "I am so happy about my family! Are you happy too?", with
    the sentiment and topics extracted from it, scores 10. *)
Theorem calculate_importance_clamped_sum :
  (forall (message : str) (topics : list str) (sentiment : str),
     exists emotional personal question long : Z,
       (emotional = 2 /\
        (sentiment = lit "positive" \/ sentiment = lit "negative") \/
        emotional = 0 /\
        sentiment <> lit "positive" /\ sentiment <> lit "negative") /\
       (personal = 2 /\
        (exists t, In t topics /\
                   In t [lit "family"; lit "faith"; lit "relationships";
                         lit "health"]) \/
        personal = 0 /\
        ~ (exists t, In t topics /\
                     In t [lit "family"; lit "faith"; lit "relationships";
                           lit "health"])) /\
       (question = 1 /\ In 63%N message \/
        question = 0 /\ ~ In 63%N message) /\
       (long = 1 /\ (20 < Spec.word_count message)%nat \/
        long = 0 /\ (Spec.word_count message <= 20)%nat) /\
       calculate_importance message topics sentiment =
       Spec.clamp 1 10 (5 + emotional + personal + question + long) /\
       1 <= calculate_importance message topics sentiment <= 10) /\
  (let message := lit "I am so happy about my family! Are you happy too?" in
   analyze_message_sentiment message = lit "positive" /\
   In (lit "family") (extract_topics message) /\
   (Spec.word_count message <= 20)%nat /\
   calculate_importance message (extract_topics message)
                        (analyze_message_sentiment message) = 10).
Proof.
  split.
  - intros message topics sentiment.
    exists (if mem sentiment [lit "positive"; lit "negative"] then 2 else 0),
           (if existsb (fun topic => mem topic personal_topics) topics
            then 2 else 0),
           (if contains (lit "?") message then 1 else 0),
           (if 20 <? Z.of_nat (length (split message)) then 1 else 0).
    refine (conj _ (conj _ (conj _ (conj _ (conj _ _))))).
    + destruct (mem sentiment _) eqn:E.
      * left. split; [reflexivity|]. apply mem_In in E.
        destruct E as [E | [E | []]]; auto.
      * right. split; [reflexivity|].
        split; intros ->; vm_compute in E; discriminate.
    + destruct (existsb _ topics) eqn:E.
      * left. split; [reflexivity|]. apply existsb_exists in E.
        destruct E as (t & Ht & E). exists t. split; [assumption|].
        apply mem_In in E. exact E.
      * right. split; [reflexivity|]. intros (t & Ht & Hp).
        assert (existsb (fun topic => mem topic personal_topics) topics = true)
          as E' by (apply existsb_exists; exists t; split;
                    [assumption | apply mem_In; exact Hp]).
        congruence.
    + destruct (contains _ message) eqn:E.
      * left. split; [reflexivity|]. apply (contains_char 63%N). exact E.
      * right. split; [reflexivity|]. intros H.
        apply (contains_char 63%N) in H. change [63%N] with (lit "?") in H.
        congruence.
    + rewrite split_length. destruct (20 <? _) eqn:E.
      * left. split; [reflexivity|]. apply Z.ltb_lt in E. lia.
      * right. split; [reflexivity|]. apply Z.ltb_ge in E. lia.
    + unfold calculate_importance, Spec.clamp.
      rewrite importance_before_clamp_sum. reflexivity.
    + unfold calculate_importance. lia.
  - cbv zeta. refine (conj _ (conj _ (conj _ _))).
    + vm_compute. reflexivity.
    + vm_compute. left. reflexivity.
    + vm_compute. lia.
    + vm_compute. reflexivity.
Qed.

(** C10: the heuristics only add to the base of 5, so the clamp from
    below never acts and [calculate_importance] ranges over [5,10]. *)
Theorem calculate_importance_at_least_base :
  (forall (message : str) (topics : list str) (sentiment : str),
     5 <= importance_before_clamp message topics sentiment /\
     Z.max 1 (importance_before_clamp message topics sentiment) =
     importance_before_clamp message topics sentiment /\
     calculate_importance message topics sentiment =
     Z.min 10 (importance_before_clamp message topics sentiment) /\
     5 <= calculate_importance message topics sentiment <= 10) /\
  (forall v : Z, 5 <= v <= 10 ->
     exists message topics sentiment,
       calculate_importance message topics sentiment = v).
Proof.
  split.
  - intros message topics sentiment.
    pose proof (importance_before_clamp_range message topics sentiment).
    unfold calculate_importance. repeat split; lia.
  - intros v Hv.
    assert (v = 5 \/ v = 6 \/ v = 7 \/ v = 8 \/ v = 9 \/ v = 10)
      as [-> | [-> | [-> | [-> | [-> | ->]]]]] by lia.
    + exists (lit "ok"), [lit "general"], (lit "neutral"). reflexivity.
    + exists (lit "ok?"), [lit "general"], (lit "neutral"). reflexivity.
    + exists (lit "ok"), [lit "work"], (lit "positive"). reflexivity.
    + exists (lit "ok?"), [lit "work"], (lit "negative"). reflexivity.
    + exists (lit "ok"), [lit "health"], (lit "negative"). reflexivity.
    + exists (lit "ok?"), [lit "faith"], (lit "positive"). reflexivity.
Qed.

(** ** Signal extractor *)

(** C2, as the code has it: the two counts are the numbers of listed words
    that occur at least once, as substrings, in the lower-cased message (a
    word that occurs several times counts once); the sentiment is positive
    when the positive count is the larger, negative when the negative count
    is, and neutral when the two are equal. *)
Theorem analyze_message_sentiment_by_presence (message : str) :
  let text := lower unicode_lower message in
  let pos_count := Spec.present positive_words text in
  let neg_count := Spec.present negative_words text in
  (forall words word,
     In word (filter (fun word => contains word text) words) <->
     In word words /\ exists pre post, text = pre ++ word ++ post) /\
  (neg_count < pos_count ->
   analyze_message_sentiment message = lit "positive") /\
  (pos_count < neg_count ->
   analyze_message_sentiment message = lit "negative") /\
  (pos_count = neg_count ->
   analyze_message_sentiment message = lit "neutral").
Proof.
  cbv zeta. unfold analyze_message_sentiment.
  rewrite !sum_present_present.
  split; [|repeat split].
  - intros words word. rewrite filter_In, contains_substring. reflexivity.
  - intros H. apply Z.ltb_lt in H. rewrite H. reflexivity.
  - intros H.
    assert ((Spec.present negative_words (lower unicode_lower message)
             <? Spec.present positive_words (lower unicode_lower message))
            = false) as -> by (apply Z.ltb_ge; lia).
    apply Z.ltb_lt in H. rewrite H. reflexivity.
  - intros H. rewrite H, Z.ltb_irrefl. reflexivity.
Qed.

Lemma extract_topics_loop (text : str) (table : list (str * list str))
    (start : list str) :
  fold_left
    (fun topics item =>
       let '(topic, keywords) := item in
       if existsb (fun keyword => contains keyword text) keywords
       then topics ++ [topic] else topics)
    table start
  = start ++
    List.map fst
      (filter (fun item => existsb (fun keyword => contains keyword text)
                                   (snd item)) table).
Proof.
  revert start; induction table as [|[label keywords] table IH];
    intros start; simpl.
  - rewrite app_nil_r. reflexivity.
  - rewrite IH. destruct (existsb _ keywords); simpl.
    + rewrite <- app_assoc. reflexivity.
    + reflexivity.
Qed.

Lemma extract_topics_matching_or_general (message : str) :
  extract_topics message =
  match matching_topics message with
  | [] => [lit "general"]
  | _ :: _ => matching_topics message
  end.
Proof.
  unfold extract_topics, matching_topics.
  rewrite extract_topics_loop. reflexivity.
Qed.

(** C3: [extract_topics] returns the categories of the six-entry table, in
    the order of the table, that have a keyword occurring in the
    lower-cased message; when none has, as for the empty message, it
    returns ["general"]; the result is never empty. *)
Theorem extract_topics_matching (message : str) :
  List.map fst topic_keywords =
    [lit "family"; lit "work"; lit "learning"; lit "faith";
     lit "relationships"; lit "health"] /\
  (forall label,
     In label (matching_topics message) <->
     exists keywords keyword,
       In (label, keywords) topic_keywords /\ In keyword keywords /\
       exists pre post, lower unicode_lower message = pre ++ keyword ++ post) /\
  (exists kept,
     length kept = length topic_keywords /\
     matching_topics message =
     List.map fst
       (List.map snd (filter fst (combine kept topic_keywords)))) /\
  (matching_topics message <> [] ->
   extract_topics message = matching_topics message) /\
  (matching_topics message = [] ->
   extract_topics message = [lit "general"]) /\
  extract_topics message <> [] /\
  extract_topics [] = [lit "general"].
Proof.
  refine (conj _ (conj _ (conj _ (conj _ (conj _ (conj _ _)))))).
  - reflexivity.
  - intros label. unfold matching_topics. rewrite in_map_iff. split.
    + intros ([label' keywords] & E & H). simpl in E. subst label'.
      apply filter_In in H. destruct H as (H & M). simpl in M.
      apply existsb_exists in M. destruct M as (keyword & Hk & M).
      apply contains_substring in M.
      exists keywords, keyword. auto.
    + intros (keywords & keyword & H & Hk & M).
      exists (label, keywords). split; [reflexivity|].
      apply filter_In. split; [assumption|]. simpl.
      apply existsb_exists. exists keyword. split; [assumption|].
      apply contains_substring. exact M.
  - unfold matching_topics.
    generalize (fun item : str * list str =>
                  existsb (fun keyword =>
                             contains keyword (lower unicode_lower message))
                          (snd item)).
    intros keep. induction topic_keywords as [|item table IH].
    + exists []. split; reflexivity.
    + destruct IH as (kept & L & E).
      exists (keep item :: kept). split; [simpl; congruence|].
      simpl. destruct (keep item); simpl; rewrite E; reflexivity.
  - intros H. rewrite extract_topics_matching_or_general.
    destruct (matching_topics message); [contradiction | reflexivity].
  - intros H. rewrite extract_topics_matching_or_general, H. reflexivity.
  - rewrite extract_topics_matching_or_general.
    destruct (matching_topics message); discriminate.
  - reflexivity.
Qed.

(** ** Sequencing *)

Lemma bind_ok {A B} (m : M A) (k : A -> M B) (w w' : World) (a : A) :
  m w = (Ok a, w') -> bind m k w = k a w'.
Proof. intros E. unfold bind. rewrite E. reflexivity. Qed.

Lemma bind_raise {A B} (m : M A) (k : A -> M B) (w w' : World) (e : exn) :
  m w = (Raise e, w') -> bind m k w = (Raise e, w').
Proof. intros E. unfold bind. rewrite E. reflexivity. Qed.

Lemma keeps_ret {A X} (f : World -> X) (a : A) : keeps f (ret a).
Proof. intros w. reflexivity. Qed.

Lemma keeps_raise {A X} (f : World -> X) (e : exn) : keeps f (@raise A e).
Proof. intros w. reflexivity. Qed.

Lemma keeps_bind {A B X} (f : World -> X) (m : M A) (k : A -> M B) :
  keeps f m -> (forall a, keeps f (k a)) -> keeps f (bind m k).
Proof.
  intros Hm Hk w. unfold bind. specialize (Hm w).
  destruct (m w) as [[a|e] w']; simpl in *.
  - rewrite Hk. exact Hm.
  - exact Hm.
Qed.

Lemma keeps_try_except {A X} (f : World -> X) (m : M A) (h : exn -> M A) :
  keeps f m -> (forall e, keeps f (h e)) -> keeps f (try_except m h).
Proof.
  intros Hm Hh w. unfold try_except. specialize (Hm w).
  destruct (m w) as [[a|e] w']; simpl in *.
  - exact Hm.
  - rewrite Hh. exact Hm.
Qed.

Lemma keeps_for_fold {A B X} (f : World -> X) (xs : list A)
    (body : B -> A -> M B) :
  (forall acc x, keeps f (body acc x)) ->
  forall acc, keeps f (for_fold xs acc body).
Proof.
  intros Hb. induction xs as [|x xs IH]; intros acc; simpl.
  - apply keeps_ret.
  - apply keeps_bind; [apply Hb | intros; apply IH].
Qed.

Lemma keeps_for_each {A X} (f : World -> X) (xs : list A)
    (body : A -> M unit) :
  (forall x, keeps f (body x)) -> keeps f (for_each xs body).
Proof.
  intros Hb. induction xs as [|x xs IH]; simpl.
  - apply keeps_ret.
  - apply keeps_bind; [apply Hb | intros; apply IH].
Qed.

Lemma keeps_sql_statement {X} (f : World -> X) :
  (forall c t p l k r i fs1 fs2,
     f (mkWorld c t p l k r i fs1) = f (mkWorld c t p l k r i fs2)) ->
  keeps f sql_statement.
Proof.
  intros H [c t p l k r i fs]. unfold sql_statement. simpl.
  destruct fs as [|[e|] rest]; simpl; auto.
Qed.

Lemma keeps_random_choice {X} (f : World -> X) (seq : list str) :
  (forall c t p l k r i1 i2 fs,
     f (mkWorld c t p l k r i1 fs) = f (mkWorld c t p l k r i2 fs)) ->
  keeps f (random_choice seq).
Proof.
  intros H [c t p l k r i fs]. unfold random_choice.
  destruct seq; simpl; auto.
Qed.

Lemma keeps_bind_int {X} (f : World -> X) (n : Z) : keeps f (bind_int n).
Proof.
  unfold bind_int. destruct (Sql.integer n); intros w; reflexivity.
Qed.

Lemma keeps_bind_str {X} (f : World -> X) (s : str) : keeps f (bind_str s).
Proof.
  unfold bind_str. destruct (encode s); intros w; reflexivity.
Qed.

(** Breaks a goal [keeps f m] down along the structure of [m]. *)
Ltac keeps_step :=
  first
    [ apply keeps_ret
    | apply keeps_raise
    | apply keeps_bind_int
    | apply keeps_bind_str
    | apply keeps_bind; [|intros]
    | apply keeps_try_except; [|intros]
    | apply keeps_for_fold; intros
    | apply keeps_for_each; intros
    | apply keeps_sql_statement; intros; reflexivity
    | apply keeps_random_choice; intros; reflexivity
    | match goal with
      | |- keeps _ (match ?x with _ => _ end) => destruct x
      | |- keeps _ (if ?b then _ else _) => destruct b
      end
    | (intros w; reflexivity) ].

Ltac keeps_auto := repeat keeps_step.

Lemma find_relevant_memories_keeps_store (message : str) (limit : Z) :
  keeps conversations (find_relevant_memories message limit).
Proof. unfold find_relevant_memories, select_by_topic. keeps_auto. Qed.

(** ** Memory retriever *)

Lemma insert_row_permutation {A} (before : A -> A -> bool) (a : A)
    (rows : list A) :
  Permutation (Sql.insert_row before a rows) (a :: rows).
Proof.
  induction rows as [|b rows IH]; simpl.
  - apply Permutation_refl.
  - destruct (before a b).
    + apply Permutation_refl.
    + apply perm_trans with (b :: a :: rows).
      * apply perm_skip. exact IH.
      * apply perm_swap.
Qed.

Lemma order_by_permutation {A} (before : A -> A -> bool) (rows : list A) :
  Permutation (Sql.order_by before rows) rows.
Proof.
  induction rows as [|a rows IH]; simpl.
  - apply perm_nil.
  - apply perm_trans with (a :: Sql.order_by before rows).
    + apply insert_row_permutation.
    + apply perm_skip. exact IH.
Qed.

Lemma insert_row_sorted {A} (before : A -> A -> bool) (a : A)
    (rows : list A) :
  (forall x y, before x y = false -> before y x = true) ->
  Sorted (fun x y => before x y = true) rows ->
  Sorted (fun x y => before x y = true) (Sql.insert_row before a rows).
Proof.
  intros total. induction rows as [|b rows IH]; intros S; simpl.
  - repeat constructor.
  - destruct (before a b) eqn:E.
    + constructor; [exact S | constructor; exact E].
    + inversion S as [|? ? S' H]; subst.
      constructor; [apply IH; exact S'|].
      destruct rows as [|c rows]; simpl.
      * constructor. apply total. exact E.
      * destruct (before a c).
        -- constructor. apply total. exact E.
        -- inversion H; subst. constructor. assumption.
Qed.

Lemma order_by_sorted {A} (before : A -> A -> bool) (rows : list A) :
  (forall x y, before x y = false -> before y x = true) ->
  Sorted (fun x y => before x y = true) (Sql.order_by before rows).
Proof.
  intros total. induction rows as [|a rows IH]; simpl.
  - constructor.
  - apply insert_row_sorted; assumption.
Qed.

Lemma row_before_order (a b : ConversationMemory) :
  row_before a b = true <->
  importance b < importance a \/
  importance a = importance b /\ timestamp b <= timestamp a.
Proof.
  unfold row_before.
  rewrite orb_true_iff, andb_true_iff, Z.ltb_lt, Z.eqb_eq, Z.leb_le.
  reflexivity.
Qed.

Lemma row_before_total (a b : ConversationMemory) :
  row_before a b = false -> row_before b a = true.
Proof.
  intros H. apply row_before_order.
  assert (~ (importance b < importance a \/
             importance a = importance b /\ timestamp b <= timestamp a))
    as N by (rewrite <- row_before_order; congruence).
  lia.
Qed.

Lemma fold_append_memories (rows acc : list ConversationMemory) :
  fold_left (fun memories row => memories ++ [memory_of_row row]) rows acc
  = acc ++ List.map memory_of_row rows.
Proof.
  revert acc; induction rows as [|row rows IH]; intros acc; simpl.
  - rewrite app_nil_r. reflexivity.
  - rewrite IH, <- app_assoc. reflexivity.
Qed.

Lemma sql_statement_healthy (w : World) :
  healthy w ->
  exists w', sql_statement w = (Ok tt, w') /\ healthy w' /\
             conversations w' = conversations w.
Proof.
  unfold healthy, sql_statement. intros H.
  destruct (faults w) as [|fault rest] eqn:E.
  - exists w. rewrite E. auto.
  - inversion H; subst. eexists. split; [reflexivity|].
    simpl. split; [assumption | reflexivity].
Qed.

Lemma integer_range (n : Z) :
  Sql.integer n = true <-> - 2 ^ 63 <= n < 2 ^ 63.
Proof.
  unfold Sql.integer. rewrite andb_true_iff, Z.leb_le, Z.ltb_lt. reflexivity.
Qed.

Lemma not_integer_range (n : Z) :
  Sql.integer n = false <-> n < - 2 ^ 63 \/ 2 ^ 63 <= n.
Proof.
  unfold Sql.integer. rewrite andb_false_iff, Z.leb_gt, Z.ltb_ge. reflexivity.
Qed.

Lemma select_by_topic_healthy (label : str) (limit : Z) (w : World) :
  healthy w ->
  Sql.integer limit = true ->
  exists w',
    select_by_topic label limit w =
      (Ok (select_rows label limit (conversations w)), w') /\
    healthy w' /\ conversations w' = conversations w.
Proof.
  intros H I. destruct (sql_statement_healthy w H) as (w' & E & H' & C).
  exists w'. unfold select_by_topic. rewrite (bind_ok _ _ _ _ _ E).
  unfold bind_int. rewrite I.
  unfold bind, get_conversations, ret. rewrite C. auto.
Qed.

Lemma select_by_topic_overflow (label : str) (limit : Z) (w : World) :
  healthy w ->
  Sql.integer limit = false ->
  exists w',
    select_by_topic label limit w =
      (Raise (OverflowError
                (lit "Python int too large to convert to SQLite INTEGER")),
       w') /\
    conversations w' = conversations w.
Proof.
  intros H I. destruct (sql_statement_healthy w H) as (w' & E & H' & C).
  exists w'. unfold select_by_topic. rewrite (bind_ok _ _ _ _ _ E).
  unfold bind_int. rewrite I. unfold bind, raise. auto.
Qed.

Lemma find_loop_healthy (limit : Z) (topics : list str) :
  Sql.integer limit = true ->
  forall (acc : list ConversationMemory) (w : World),
    healthy w ->
    exists w',
      for_fold topics acc
        (fun relevant_memories label =>
           rows <- select_by_topic label limit ;;
           ret (fold_left
                  (fun memories row => memories ++ [memory_of_row row])
                  rows relevant_memories)) w
      = (Ok (acc ++
             flat_map (fun label =>
                         List.map memory_of_row
                           (select_rows label limit (conversations w)))
                      topics), w') /\
      healthy w' /\ conversations w' = conversations w.
Proof.
  intros I.
  induction topics as [|label topics IH]; intros acc w H; simpl.
  - exists w. rewrite app_nil_r. auto.
  - destruct (select_by_topic_healthy label limit w H I)
      as (w1 & E & H1 & C1).
    unfold bind at 1. unfold bind at 1. rewrite E. unfold ret at 1.
    destruct (IH (fold_left
                    (fun memories row => memories ++ [memory_of_row row])
                    (select_rows label limit (conversations w)) acc)
                 w1 H1) as (w2 & E2 & H2 & C2).
    exists w2. rewrite E2, fold_append_memories, C1, <- app_assoc.
    split; [reflexivity|]. split; [assumption | congruence].
Qed.

Lemma find_relevant_memories_healthy (message : str) (limit : Z) (w : World) :
  healthy w ->
  Sql.integer limit = true ->
  exists w',
    find_relevant_memories message limit w =
      (Ok (slice_to limit
             (flat_map (fun label =>
                          List.map memory_of_row
                            (select_rows label limit (conversations w)))
                       (extract_topics message))), w') /\
    healthy w' /\ conversations w' = conversations w.
Proof.
  intros H I. unfold find_relevant_memories.
  destruct (find_loop_healthy limit (extract_topics message) I [] w H)
    as (w' & E & H' & C).
  exists w'. rewrite (bind_ok _ _ _ _ _ E). simpl. auto.
Qed.

Lemma find_relevant_memories_overflow (message : str) (limit : Z)
    (w : World) :
  healthy w ->
  Sql.integer limit = false ->
  fst (find_relevant_memories message limit w) =
    Raise (OverflowError
             (lit "Python int too large to convert to SQLite INTEGER")) /\
  conversations (snd (find_relevant_memories message limit w)) =
    conversations w.
Proof.
  intros H I. unfold find_relevant_memories.
  rewrite extract_topics_matching_or_general.
  assert (exists label labels,
            match matching_topics message with
            | [] => [lit "general"]
            | _ :: _ => matching_topics message
            end = label :: labels) as (label & labels & ->).
  { destruct (matching_topics message) as [|label labels]; eauto. }
  destruct (select_by_topic_overflow label limit w H I) as (w' & E & C).
  cbn [for_fold]. unfold bind. rewrite E. split; [reflexivity | exact C].
Qed.

Lemma extract_topics_labels (message label : str) :
  In label (extract_topics message) ->
  In label (lit "general" :: List.map fst topic_keywords).
Proof.
  rewrite extract_topics_matching_or_general.
  destruct (matching_topics message) as [|first others] eqn:E.
  - intros [<- | []]. left. reflexivity.
  - rewrite <- E. unfold matching_topics. intros H. right.
    apply in_map_iff in H. destruct H as (item & <- & H).
    apply filter_In in H. apply in_map. exact (proj1 H).
Qed.

Lemma extract_topics_lower_case (message label : str) :
  In label (extract_topics message) -> ascii_lower label = label.
Proof.
  intros H. apply extract_topics_labels in H. simpl in H.
  repeat (destruct H as [<- | H]; [reflexivity|]). destruct H.
Qed.

Lemma sorted_weaken {A} (R R' : A -> A -> Prop) (l : list A) :
  (forall x y, R x y -> R' x y) -> Sorted R l -> Sorted R' l.
Proof.
  intros sub. induction 1 as [|a l S IH H]; constructor.
  - exact IH.
  - destruct H; constructor. apply sub. assumption.
Qed.

Lemma row_matches_lower_case (label : str) (row : ConversationMemory) :
  ascii_lower label = label ->
  ascii_lower (Sql.json_dumps (context_tags row)) =
    Sql.json_dumps (context_tags row) ->
  row_matches label row = true <->
  topic row = label \/
  exists pre post, Sql.json_dumps (context_tags row) = pre ++ label ++ post.
Proof.
  intros Hl Ht. unfold row_matches, Sql.like_contains.
  rewrite Hl, Ht, orb_true_iff, str_eqb_eq, contains_substring. reflexivity.
Qed.

Lemma slice_to_firstn {A} (n : Z) (l : list A) :
  0 <= n -> slice_to n l = firstn (Z.to_nat n) l.
Proof.
  intros H. unfold slice_to.
  destruct (n <? 0) eqn:E; [apply Z.ltb_lt in E; lia | reflexivity].
Qed.

Lemma limit_firstn {A} (n : Z) (l : list A) :
  0 <= n -> Sql.limit n l = firstn (Z.to_nat n) l.
Proof.
  intros H. unfold Sql.limit.
  destruct (n <? 0) eqn:E; [apply Z.ltb_lt in E; lia | reflexivity].
Qed.

Lemma ascii_lower_join (sep : str) (parts : list str) :
  ascii_lower sep = sep ->
  Forall (fun part => ascii_lower part = part) parts ->
  ascii_lower (join sep parts) = join sep parts.
Proof.
  intros Hs. induction 1 as [|part parts Hp Hr IH]; [reflexivity|].
  destruct parts as [|next parts]; [exact Hp|].
  change (join sep (part :: next :: parts))
    with (part ++ sep ++ join sep (next :: parts)).
  unfold ascii_lower in *. rewrite !map_app, Hp, Hs, IH. reflexivity.
Qed.

(** The tag list of a row written by [save_conversation] is lower-case
    text: for such rows LIKE is the substring test. *)
Lemma saved_row_tags_lower_case (user_message may_response ident : str)
    (stamped : datetime) :
  let row := saved_row user_message may_response ident stamped in
  ascii_lower (Sql.json_dumps (context_tags row)) =
  Sql.json_dumps (context_tags row).
Proof.
  cbv zeta. cbn [saved_row context_tags]. unfold Sql.json_dumps.
  unfold ascii_lower at 1. rewrite !map_app.
  fold (ascii_lower (join (lit ", ")
                       (List.map Sql.json_dumps_str
                                 (extract_topics user_message)))).
  rewrite ascii_lower_join; [reflexivity | reflexivity |].
  apply Forall_forall. intros part H. apply in_map_iff in H.
  destruct H as (label & <- & H). apply extract_topics_labels in H.
  simpl in H.
  repeat (destruct H as [<- | H]; [reflexivity|]). destruct H.
Qed.

(** C4, as the code has it.  With a reachable store (sqlite3 raises on no
    statement) and a limit that is not negative and fits SQLite's INTEGER
    (below 2^63), [find_relevant_memories] returns the first [limit]
    elements of the concatenation, in the order of the extracted topics and
    without removing duplicates, of the first [limit] rows per topic; the
    rows of a topic are those whose primary topic equals it or whose
    serialized tag list contains it (SQLite's LIKE, which for lower-case
    tags is the substring test), ordered by importance descending, then
    timestamp descending.  With an empty reachable store the result is
    empty, whatever the message and the limit within the signed 64-bit
    integers.  A limit outside them cannot be bound to the statement: the
    first query raises [OverflowError], whatever the store holds. *)
Theorem find_relevant_memories_ranked :
  (forall (message : str) (limit : Z) (w : World),
     healthy w -> conversations w = [] ->
     - 2 ^ 63 <= limit < 2 ^ 63 ->
     fst (find_relevant_memories message limit w) = Ok []) /\
  (forall (message : str) (limit : Z) (w : World),
     healthy w -> 0 <= limit < 2 ^ 63 ->
     let topics := extract_topics message in
     let store := conversations w in
     let ranked label :=
       Sql.order_by row_before (filter (row_matches label) store) in
     fst (find_relevant_memories message limit w) =
       Ok (firstn (Z.to_nat limit)
             (flat_map (fun label =>
                          List.map memory_of_row
                            (firstn (Z.to_nat limit) (ranked label)))
                       topics)) /\
     conversations (snd (find_relevant_memories message limit w)) = store /\
     (forall label,
        Permutation (ranked label) (filter (row_matches label) store) /\
        Sorted (fun a b =>
                  importance b < importance a \/
                  importance a = importance b /\ timestamp b <= timestamp a)
               (ranked label)) /\
     (forall label row,
        In label topics ->
        ascii_lower (Sql.json_dumps (context_tags row)) =
          Sql.json_dumps (context_tags row) ->
        row_matches label row = true <->
        topic row = label \/
        exists pre post,
          Sql.json_dumps (context_tags row) = pre ++ label ++ post)) /\
  (forall (message : str) (limit : Z) (w : World),
     healthy w -> limit < - 2 ^ 63 \/ 2 ^ 63 <= limit ->
     fst (find_relevant_memories message limit w) =
       Raise (OverflowError
                (lit "Python int too large to convert to SQLite INTEGER")) /\
     conversations (snd (find_relevant_memories message limit w)) =
       conversations w).
Proof.
  refine (conj _ (conj _ _)).
  - intros message limit w H E R.
    destruct (find_relevant_memories_healthy message limit w H
                (proj2 (integer_range limit) R))
      as (w' & F & _ & _).
    rewrite F, E. simpl.
    assert (forall labels : list str,
              flat_map (fun label =>
                          List.map memory_of_row (select_rows label limit []))
                       labels = []) as Z.
    { induction labels as [|l labels IH]; simpl; [reflexivity|].
      rewrite IH. unfold select_rows, Sql.limit. simpl.
      destruct (limit <? 0); [reflexivity|]. rewrite firstn_nil. reflexivity. }
    rewrite Z. unfold slice_to.
    destruct (limit <? 0); rewrite firstn_nil; reflexivity.
  - intros message limit w H [L U]. cbv zeta.
    assert (- 2 ^ 63 <= limit < 2 ^ 63) as R.
    { split; [|exact U]. apply Z.le_trans with 0; [|exact L].
      vm_compute. discriminate. }
    destruct (find_relevant_memories_healthy message limit w H
                (proj2 (integer_range limit) R))
      as (w' & F & _ & C).
    rewrite F. simpl fst. simpl snd.
    refine (conj _ (conj C (conj _ _))).
    + rewrite slice_to_firstn by assumption. do 2 f_equal.
      apply flat_map_ext. intros label. unfold select_rows.
      rewrite limit_firstn by assumption. reflexivity.
    + intros label. split.
      * apply order_by_permutation.
      * apply sorted_weaken with (R := fun a b => row_before a b = true).
        -- intros a b. apply row_before_order.
        -- apply order_by_sorted. apply row_before_total.
    + intros label row Hl Ht. apply row_matches_lower_case; [|assumption].
      apply (extract_topics_lower_case message). assumption.
  - intros message limit w H R.
    apply find_relevant_memories_overflow;
      [exact H | exact (proj2 (not_integer_range limit) R)].
Qed.

(** ** Orchestrator: failures *)

Lemma chat_with_may_outcome (user_message : str) (w : World) :
  match chat_with_may_try user_message w with
  | (Ok reply, w') => chat_with_may user_message w = (Ok reply, w')
  | (Raise e, w') =>
      fst (chat_with_may user_message w) = Ok apology /\
      log (snd (chat_with_may user_message w)) = log w' ++ [error_entry e] /\
      conversations (snd (chat_with_may user_message w)) = conversations w' /\
      user_profile (snd (chat_with_may user_message w)) = user_profile w' /\
      user_profile_table (snd (chat_with_may user_message w)) =
        user_profile_table w'
  end.
Proof.
  unfold chat_with_may, try_except.
  destruct (chat_with_may_try user_message w) as [[reply|e] w'];
    [reflexivity|]. simpl. auto.
Qed.

Lemma save_conversation_insert_raises (user_message may_response : str)
    (w : World) (bytes : list N) (e : exn) (rest : list (option exn)) :
  encode (user_message ++ may_response ++ lit (datetime_str (clock w 0%nat)))
    = Some bytes ->
  faults w = Some e :: rest ->
  fst (save_conversation user_message may_response w) = Raise e /\
  conversations (snd (save_conversation user_message may_response w)) =
    conversations w.
Proof.
  intros E F. unfold save_conversation, bind, datetime_now, ret,
    insert_conversation, sql_statement. simpl. rewrite E. simpl.
  rewrite F. simpl. auto.
Qed.

Lemma modify_user_profile_run (f : UserProfile -> UserProfile) (w : World) :
  modify_user_profile f w =
  (Ok tt,
   mkWorld (conversations w) (user_profile_table w)
           (option_map f (user_profile w)) (log w) (clock w)
           (random_floats w) (random_indices w) (faults w)).
Proof. reflexivity. Qed.

Lemma for_each_add_interest (labels : list str) (w : World) :
  exists w',
    for_each labels (fun label => modify_user_profile (add_interest label)) w
    = (Ok tt, w') /\
    user_profile w' = option_map (add_interests labels) (user_profile w) /\
    faults w' = faults w /\ conversations w' = conversations w /\
    user_profile_table w' = user_profile_table w /\ log w' = log w.
Proof.
  revert w; induction labels as [|label labels IH]; intros w; simpl.
  - exists w. destruct (user_profile w); auto 6.
  - rewrite (bind_ok _ _ _ _ _ (modify_user_profile_run _ w)).
    match goal with |- context [for_each _ _ ?w1] =>
      destruct (IH w1) as (w' & E & P & F & C & T & L) end.
    exists w'. rewrite E. simpl in *. split; [reflexivity|].
    rewrite P, F, C, T, L. destruct (user_profile w); auto 6.
Qed.

(** The profile block, when a profile is loaded: the clock is read, the
    profile is changed in memory, then [save_user_profile] is called. *)
Lemma update_user_profile_run (user_message : str) (w : World)
    (p : UserProfile) :
  user_profile w = Some p ->
  let p' := add_interests (extract_topics user_message)
                          (set_last_interaction (clock w 0%nat) p) in
  exists w',
    update_user_profile user_message w = save_user_profile p' w' /\
    user_profile w' = Some p' /\ faults w' = faults w /\
    conversations w' = conversations w /\
    user_profile_table w' = user_profile_table w /\ log w' = log w.
Proof.
  intros P. cbv zeta. unfold update_user_profile.
  unfold bind at 1. unfold get_user_profile at 1. rewrite P.
  unfold bind at 1. unfold datetime_now at 1.
  rewrite (bind_ok _ _ _ _ _ (modify_user_profile_run _ _)).
  cbn [user_profile option_map conversations user_profile_table log clock
       random_floats random_indices faults].
  rewrite P. cbn [option_map].
  match goal with |- context [bind (for_each _ _) _ ?w1] =>
    destruct (for_each_add_interest (extract_topics user_message) w1)
      as (w' & E & P' & F & C & T & L) end.
  rewrite (bind_ok _ _ _ _ _ E). cbn in P', F, C, T, L.
  exists w'. unfold bind at 1. unfold get_user_profile at 1. rewrite P'.
  auto 7.
Qed.

Lemma update_user_profile_loaded (user_message : str) (w : World)
    (p : UserProfile) :
  user_profile w = Some p ->
  let p' := add_interests (extract_topics user_message)
                          (set_last_interaction (clock w 0%nat) p) in
  user_profile (snd (update_user_profile user_message w)) = Some p' /\
  conversations (snd (update_user_profile user_message w)) = conversations w /\
  match faults w with
  | Some e :: _ =>
      fst (update_user_profile user_message w) = Raise e /\
      user_profile_table (snd (update_user_profile user_message w)) =
        user_profile_table w
  | _ =>
      fst (update_user_profile user_message w) =
        Raise syntax_error_near_values /\
      user_profile_table (snd (update_user_profile user_message w)) =
        user_profile_table w
  end.
Proof.
  intros P. cbv zeta.
  destruct (update_user_profile_run user_message w p P)
    as (w' & E & P' & F & C & T & L).
  rewrite E. clear E.
  unfold save_user_profile, bind, sql_statement, raise.
  rewrite <- F, <- C, <- T.
  destruct (faults w') as [|[e|] rest]; simpl; rewrite ?P'; auto.
Qed.

Lemma update_user_profile_not_loaded (user_message : str) (w : World) :
  user_profile w = None -> update_user_profile user_message w = (Ok tt, w).
Proof.
  intros P. unfold update_user_profile, bind, get_user_profile.
  rewrite P. reflexivity.
Qed.

(** ** Persistence of a turn *)

(** What [save_conversation] does, case by case.  The clock is read twice:
    for the identifier, then for the timestamp. *)
Lemma save_conversation_run (user_message may_response : str) (w : World) :
  let created := clock w 0%nat in
  let stamped := clock w 1%nat in
  let after := save_conversation user_message may_response w in
  user_profile (snd after) = user_profile w /\
  user_profile_table (snd after) = user_profile_table w /\
  match conversation_id user_message may_response created with
  | None =>
      fst after =
        Raise (UnicodeEncodeError
                 (user_message ++ may_response ++ lit (datetime_str created))) /\
      conversations (snd after) = conversations w /\
      faults (snd after) = faults w
  | Some ident =>
      faults (snd after) = tl (faults w) /\
      match faults w with
      | Some e :: _ =>
          fst after = Raise e /\ conversations (snd after) = conversations w
      | _ =>
          if existsb (fun row => str_eqb (id row) ident) (conversations w)
          then fst after = Raise unique_constraint_failed /\
               conversations (snd after) = conversations w
          else fst after = Ok tt /\
               conversations (snd after) =
                 conversations w ++
                 [saved_row user_message may_response ident stamped]
      end
  end.
Proof.
  cbv zeta. unfold conversation_id, save_conversation, saved_row.
  unfold insert_conversation, logger, sql_statement, get_conversations,
    set_conversations, raise, datetime_now, ret, bind.
  cbn [fst snd conversations user_profile user_profile_table log
       clock random_floats random_indices faults id tail_of].
  destruct (encode (user_message ++ may_response ++
                    lit (datetime_str (clock w 0%nat)))) as [bytes|];
    cbn [option_map fst snd conversations user_profile user_profile_table
         log clock random_floats random_indices faults id tail_of];
    [|auto].
  generalize (firstn 16 (sha256_hexdigest bytes)). intros ident.
  destruct (faults w) as [|[e|] rest];
    cbn [fst snd conversations user_profile user_profile_table log
         clock random_floats random_indices faults id tl].
  - destruct (existsb _ (conversations w)); cbn [fst snd conversations
      user_profile user_profile_table faults]; auto.
  - auto.
  - destruct (existsb _ (conversations w)); cbn [fst snd conversations
      user_profile user_profile_table faults]; auto.
Qed.

Lemma existsb_id (ident : str) (rows : list ConversationMemory) :
  existsb (fun row => str_eqb (id row) ident) rows = true <->
  In ident (List.map id rows).
Proof.
  rewrite existsb_exists, in_map_iff. split.
  - intros (row & H & E). apply str_eqb_eq in E. exists row. auto.
  - intros (row & E & H). exists row. split; [assumption|].
    apply str_eqb_eq. assumption.
Qed.

Lemma generate_thoughtful_response_keeps {X} (f : World -> X)
    (user_message : str) :
  (forall c t p l k1 k2 r1 r2 i1 i2 fs1 fs2,
     f (mkWorld c t p l k1 r1 i1 fs1) = f (mkWorld c t p l k2 r2 i2 fs2)) ->
  keeps f (generate_thoughtful_response user_message).
Proof.
  intros H.
  assert (keeps f datetime_now) as Hnow by (intros [c t p l k r i fs]; apply H).
  assert (keeps f random_random) as Hrnd by (intros [c t p l k r i fs]; apply H).
  assert (forall seq, keeps f (random_choice seq)) as Hch
    by (intros seq; apply keeps_random_choice; intros; apply H).
  assert (keeps f sql_statement) as Hsql
    by (apply keeps_sql_statement; intros; apply H).
  unfold generate_thoughtful_response, find_relevant_memories,
    select_by_topic, generate_core_response, generate_conversation_spark,
    get_conversations.
  repeat first [ exact Hnow | exact Hrnd | apply Hch | exact Hsql
               | keeps_step ].
Qed.

Lemma save_conversation_appended (user_message may_response : str)
    (w w' : World) :
  save_conversation user_message may_response w = (Ok tt, w') ->
  exists ident,
    conversation_id user_message may_response (clock w 0%nat) = Some ident /\
    ~ In ident (List.map id (conversations w)) /\
    conversations w' =
      conversations w ++
      [saved_row user_message may_response ident (clock w 1%nat)].
Proof.
  intros E.
  pose proof (save_conversation_run user_message may_response w) as R.
  cbv zeta in R. rewrite E in R. simpl fst in R. simpl snd in R.
  destruct R as (_ & _ & R).
  destruct (conversation_id user_message may_response (clock w 0%nat))
    as [ident|]; [|destruct R as (R & _); discriminate].
  destruct R as (_ & R). exists ident. split; [reflexivity|].
  assert (existsb (fun row => str_eqb (id row) ident) (conversations w)
          = false /\
          conversations w' =
            conversations w ++
            [saved_row user_message may_response ident (clock w 1%nat)])
    as (N & C).
  { destruct (faults w) as [|[e|] rest];
      try (destruct R as (R & _); discriminate);
      destruct (existsb _ (conversations w));
      try (destruct R as (R & _); discriminate);
      destruct R as (_ & R); auto. }
  split; [|exact C].
  intros I. apply existsb_id in I. congruence.
Qed.

(** C8, as the code has it.  The identifier of the turn [save_conversation]
    stores is [conversation_id] of the user message, the reply and the
    instant read for it (the timestamp is a second, later reading).  The
    insert is a plain INSERT under a primary key: a turn whose identifier
    no stored row has is appended as a new row; a turn whose identifier a
    stored row already has is refused with an integrity error and the store
    is left as it was. *)
Theorem save_conversation_identifier :
  (forall (user_message may_response : str) (w w' : World),
     save_conversation user_message may_response w = (Ok tt, w') ->
     exists row,
       conversations w' = conversations w ++ [row] /\
       conversation_id user_message may_response (clock w 0%nat)
         = Some (id row) /\
       ~ In (id row) (List.map id (conversations w)) /\
       row = saved_row user_message may_response (id row)
                       (clock w 1%nat) /\
       timestamp row = clock w 1%nat) /\
  (forall (user_message may_response ident : str) (w : World),
     hd None (faults w) = None ->
     conversation_id user_message may_response (clock w 0%nat) = Some ident ->
     ~ In ident (List.map id (conversations w)) ->
     fst (save_conversation user_message may_response w) = Ok tt /\
     conversations (snd (save_conversation user_message may_response w)) =
       conversations w ++
       [saved_row user_message may_response ident (clock w 1%nat)]) /\
  (forall (user_message may_response ident : str) (w : World),
     hd None (faults w) = None ->
     conversation_id user_message may_response (clock w 0%nat) = Some ident ->
     In ident (List.map id (conversations w)) ->
     fst (save_conversation user_message may_response w) =
       Raise unique_constraint_failed /\
     conversations (snd (save_conversation user_message may_response w)) =
       conversations w).
Proof.
  refine (conj _ (conj _ _)).
  - intros user_message may_response w w' E.
    destruct (save_conversation_appended user_message may_response w w' E)
      as (ident & I & N & C).
    exists (saved_row user_message may_response ident (clock w 1%nat)).
    repeat split; try assumption; reflexivity.
  - intros user_message may_response ident w F E N.
    pose proof (save_conversation_run user_message may_response w) as R.
    cbv zeta in R. rewrite E in R. destruct R as (_ & _ & _ & R).
    assert (existsb (fun row => str_eqb (id row) ident) (conversations w)
            = false) as X.
    { destruct (existsb _ (conversations w)) eqn:X; [|reflexivity].
      apply existsb_id in X. contradiction. }
    rewrite X in R.
    destruct (faults w) as [|[e|] rest]; try discriminate; exact R.
  - intros user_message may_response ident w F E I.
    pose proof (save_conversation_run user_message may_response w) as R.
    cbv zeta in R. rewrite E in R. destruct R as (_ & _ & _ & R).
    apply existsb_id in I. rewrite I in R.
    destruct (faults w) as [|[e|] rest]; try discriminate; exact R.
Qed.

(** ** Orchestrator *)

Lemma chat_with_may_try_insert_raises (user_message reply : str)
    (w w1 w2 : World) (e : exn) :
  generate_thoughtful_response user_message w = (Ok reply, w1) ->
  save_conversation user_message reply w1 = (Raise e, w2) ->
  chat_with_may_try user_message w = (Raise e, w2).
Proof.
  intros G S. unfold chat_with_may_try.
  rewrite (bind_ok _ _ _ _ _ G). rewrite (bind_raise _ _ _ _ _ S).
  reflexivity.
Qed.

Lemma chat_with_may_try_upsert_raises (user_message reply : str)
    (w w1 w2 w3 : World) (e : exn) :
  generate_thoughtful_response user_message w = (Ok reply, w1) ->
  save_conversation user_message reply w1 = (Ok tt, w2) ->
  update_user_profile user_message w2 = (Raise e, w3) ->
  chat_with_may_try user_message w = (Raise e, w3).
Proof.
  intros G S U. unfold chat_with_may_try.
  rewrite (bind_ok _ _ _ _ _ G). rewrite (bind_ok _ _ _ _ _ S).
  rewrite (bind_raise _ _ _ _ _ U). reflexivity.
Qed.

Lemma chat_with_may_caught (user_message : str) (w w' : World) (e : exn) :
  chat_with_may_try user_message w = (Raise e, w') ->
  fst (chat_with_may user_message w) = Ok apology /\
  log (snd (chat_with_may user_message w)) = log w' ++ [error_entry e] /\
  conversations (snd (chat_with_may user_message w)) = conversations w' /\
  user_profile (snd (chat_with_may user_message w)) = user_profile w' /\
  user_profile_table (snd (chat_with_may user_message w)) =
    user_profile_table w'.
Proof.
  intros E. pose proof (chat_with_may_outcome user_message w) as O.
  rewrite E in O. exact O.
Qed.

(** C5: [chat_with_may] never raises.  When the insert of the turn or the
    upsert of the profile raises, as it does when sqlite3 raises on the
    statement, the exception is caught, an error entry with the text of the
    exception is logged, and the fixed apology is returned. *)
Theorem chat_with_may_catches_storage_errors :
  (forall (user_message : str) (w : World),
     exists reply, fst (chat_with_may user_message w) = Ok reply) /\
  (forall (user_message reply : str) (w w1 w2 : World) (e : exn),
     generate_thoughtful_response user_message w = (Ok reply, w1) ->
     save_conversation user_message reply w1 = (Raise e, w2) ->
     fst (chat_with_may user_message w) = Ok apology /\
     log (snd (chat_with_may user_message w)) =
       log w2 ++ [(ERROR, lit "Error in chat: " ++ exn_str e)]) /\
  (forall (user_message reply : str) (w w1 w2 w3 : World) (e : exn),
     generate_thoughtful_response user_message w = (Ok reply, w1) ->
     save_conversation user_message reply w1 = (Ok tt, w2) ->
     update_user_profile user_message w2 = (Raise e, w3) ->
     fst (chat_with_may user_message w) = Ok apology /\
     log (snd (chat_with_may user_message w)) =
       log w3 ++ [(ERROR, lit "Error in chat: " ++ exn_str e)]) /\
  (forall (user_message may_response : str) (w : World) (bytes : list N)
          (e : exn) (rest : list (option exn)),
     encode (user_message ++ may_response ++
             lit (datetime_str (clock w 0%nat))) = Some bytes ->
     faults w = Some e :: rest ->
     fst (save_conversation user_message may_response w) = Raise e) /\
  (forall (user_message : str) (w : World) (p : UserProfile) (e : exn)
          (rest : list (option exn)),
     user_profile w = Some p ->
     faults w = Some e :: rest ->
     fst (update_user_profile user_message w) = Raise e) /\
  apology =
    lit "I'm sorry, I'm having trouble processing that right now. Could you try again?".
Proof.
  refine (conj _ (conj _ (conj _ (conj _ (conj _ _))))).
  - intros user_message w.
    pose proof (chat_with_may_outcome user_message w) as O.
    destruct (chat_with_may_try user_message w) as [[reply|e] w'].
    + exists reply. rewrite O. reflexivity.
    + exists apology. exact (proj1 O).
  - intros user_message reply w w1 w2 e G S.
    pose proof (chat_with_may_caught user_message w w2 e
                  (chat_with_may_try_insert_raises _ _ _ _ _ _ G S)) as C.
    split; [exact (proj1 C) | exact (proj1 (proj2 C))].
  - intros user_message reply w w1 w2 w3 e G S U.
    pose proof (chat_with_may_caught user_message w w3 e
                  (chat_with_may_try_upsert_raises _ _ _ _ _ _ _ G S U)) as C.
    split; [exact (proj1 C) | exact (proj1 (proj2 C))].
  - intros user_message may_response w bytes e rest E F.
    exact (proj1 (save_conversation_insert_raises _ _ _ _ _ _ E F)).
  - intros user_message w p e rest P F.
    pose proof (update_user_profile_loaded user_message w p P) as U.
    cbv zeta in U. rewrite F in U. exact (proj1 (proj2 (proj2 U))).
  - reflexivity.
Qed.

(** ** Interests of the profile *)





(** ** Response composer: two runs *)

Lemma deterministic_ret {A} (a : A) : deterministic (ret a).
Proof. intros w1 w2 H. split; [reflexivity | exact H]. Qed.

Lemma deterministic_bind {A B} (m : M A) (k : A -> M B) :
  deterministic m -> (forall a, deterministic (k a)) ->
  deterministic (bind m k).
Proof.
  intros Hm Hk w1 w2 H. unfold bind. destruct (Hm w1 w2 H) as (E & H').
  destruct (m w1) as [[a1|e1] v1], (m w2) as [[a2|e2] v2]; simpl in *;
    try discriminate.
  - inversion E; subst. apply Hk. exact H'.
  - inversion E; subst. split; [reflexivity | exact H'].
Qed.

Lemma deterministic_for_fold {A B} (xs : list A) (body : B -> A -> M B) :
  (forall acc x, deterministic (body acc x)) ->
  forall acc, deterministic (for_fold xs acc body).
Proof.
  intros Hb. induction xs as [|x xs IH]; intros acc; simpl.
  - apply deterministic_ret.
  - apply deterministic_bind; [apply Hb | intros; apply IH].
Qed.

Lemma deterministic_datetime_now : deterministic datetime_now.
Proof.
  intros w1 w2 (C & F & K & R & I). unfold datetime_now, same_inputs, tail_of.
  simpl. rewrite K. auto 6.
Qed.

Lemma deterministic_random_random : deterministic random_random.
Proof.
  intros w1 w2 (C & F & K & R & I). unfold random_random, same_inputs, tail_of.
  simpl. rewrite R. auto 6.
Qed.

Lemma deterministic_random_choice (seq : list str) :
  deterministic (random_choice seq).
Proof.
  intros w1 w2 (C & F & K & R & I). unfold random_choice, same_inputs, tail_of.
  destruct seq as [|s0 seq]; simpl; [auto 6|]. rewrite I. auto 6.
Qed.

Lemma deterministic_sql_statement : deterministic sql_statement.
Proof.
  intros w1 w2 (C & F & K & R & I). unfold sql_statement, same_inputs.
  rewrite F.
  destruct (faults w2) as [|[e|] rest] eqn:F2; simpl;
    (split; [reflexivity|]); rewrite ?F, ?F2; auto 6.
Qed.

Lemma deterministic_get_conversations : deterministic get_conversations.
Proof.
  intros w1 w2 H. unfold get_conversations. simpl.
  split; [f_equal; exact (proj1 H) | exact H].
Qed.

Lemma deterministic_raise {A} (e : exn) : deterministic (@raise A e).
Proof. intros w1 w2 H. split; [reflexivity | exact H]. Qed.

Lemma deterministic_bind_int (n : Z) : deterministic (bind_int n).
Proof.
  unfold bind_int. destruct (Sql.integer n);
    [apply deterministic_ret | apply deterministic_raise].
Qed.

Ltac deterministic_step :=
  first
    [ apply deterministic_ret
    | apply deterministic_bind_int
    | apply deterministic_datetime_now
    | apply deterministic_random_random
    | apply deterministic_random_choice
    | apply deterministic_sql_statement
    | apply deterministic_get_conversations
    | apply deterministic_bind; [|intros]
    | apply deterministic_for_fold; intros
    | match goal with
      | |- deterministic (match ?x with _ => _ end) => destruct x
      | |- deterministic (if ?b then _ else _) => destruct b
      end ].

Lemma find_relevant_memories_deterministic (message : str) (limit : Z) :
  deterministic (find_relevant_memories message limit).
Proof.
  unfold find_relevant_memories, select_by_topic.
  repeat deterministic_step.
Qed.

Lemma generate_thoughtful_response_deterministic (user_message : str) :
  deterministic (generate_thoughtful_response user_message).
Proof.
  unfold generate_thoughtful_response.
  apply deterministic_bind; [apply find_relevant_memories_deterministic|].
  intros relevant_memories.
  unfold generate_core_response, generate_conversation_spark.
  repeat deterministic_step.
Qed.

Lemma random_choice_in (seq : list str) (w w' : World) (x : str) :
  random_choice seq w = (Ok x, w') -> In x seq.
Proof.
  unfold random_choice. destruct seq as [|s0 seq]; [discriminate|].
  intros E.
  assert (x = nth (random_indices w 0%nat mod length (s0 :: seq))%nat
                  (s0 :: seq) []) as -> by congruence.
  apply nth_In. apply Nat.mod_upper_bound. discriminate.
Qed.

Lemma lookup_in (key : str) (d : list (str * list str)) (v : list str) :
  lookup key d = Some v -> In v (List.map snd d).
Proof.
  induction d as [|[k x] d IH]; simpl; [discriminate|].
  destruct (str_eqb k key).
  - intros E. inversion E. left. reflexivity.
  - intros E. right. apply IH. exact E.
Qed.

Lemma random_choice_run (seq : list str) (w : World) :
  seq <> [] ->
  random_choice seq w =
  (Ok (pick (random_indices w) 0 seq),
   mkWorld (conversations w) (user_profile_table w) (user_profile w)
           (log w) (clock w) (random_floats w)
           (tail_of (random_indices w)) (faults w)).
Proof. destruct seq; [congruence | reflexivity]. Qed.

Lemma response_pool_not_empty (key : str) :
  match lookup key responses_by_topic with
  | Some responses => responses
  | None => general_responses
  end <> [].
Proof.
  destruct (lookup key responses_by_topic) as [v|] eqn:L; [|discriminate].
  apply lookup_in in L. simpl in L.
  repeat (destruct L as [<- | L]; [discriminate|]). destruct L.
Qed.

Lemma find_relevant_memories_keeps {X} (f : World -> X) (message : str)
    (limit : Z) :
  (forall c t p l k r i fs1 fs2,
     f (mkWorld c t p l k r i fs1) = f (mkWorld c t p l k r i fs2)) ->
  keeps f (find_relevant_memories message limit).
Proof.
  intros H.
  assert (keeps f sql_statement) as Hsql
    by (apply keeps_sql_statement; intros; apply H).
  unfold find_relevant_memories, select_by_topic, get_conversations.
  repeat first [ exact Hsql | keeps_step ].
Qed.

Lemma generate_thoughtful_response_composed (user_message : str)
    (w : World) (history : list ConversationMemory) :
  fst (find_relevant_memories user_message 3 w) = Ok history ->
  fst (generate_thoughtful_response user_message w) =
  Ok (composed_reply user_message history (clock w 0%nat)
                     (random_floats w) (random_indices w)).
Proof.
  intros F.
  pose proof (find_relevant_memories_keeps clock user_message 3
                (fun _ _ _ _ _ _ _ _ _ => eq_refl) w) as Kc.
  pose proof (find_relevant_memories_keeps random_floats user_message 3
                (fun _ _ _ _ _ _ _ _ _ => eq_refl) w) as Kf.
  pose proof (find_relevant_memories_keeps random_indices user_message 3
                (fun _ _ _ _ _ _ _ _ _ => eq_refl) w) as Ki.
  unfold generate_thoughtful_response. unfold bind at 1.
  destruct (find_relevant_memories user_message 3 w) as [[found|e] w1];
    [|discriminate].
  simpl in F, Kc, Kf, Ki. inversion F; subst found. clear F.
  unfold composed_reply. rewrite <- Kc, <- Kf, <- Ki.
  unfold generate_core_response, generate_conversation_spark.
  set (pool := match lookup _ responses_by_topic with
               | Some responses => responses
               | None => general_responses
               end).
  assert (pool <> []) as P by apply response_pool_not_empty.
  assert (supportive_starters <> []) as P1 by discriminate.
  assert (encouraging_starters <> []) as P2 by discriminate.
  assert (sparks <> []) as P3 by discriminate.
  generalize dependent pool. intros pool P.
  unfold bind, ret, random_random, datetime_now.
  destruct history as [|memory others];
    [|destruct (float_lt (random_floats w1 0%nat) float_0_4)];
    destruct (str_eqb (analyze_message_sentiment user_message)
                      (lit "negative"));
    try destruct (str_eqb (analyze_message_sentiment user_message)
                          (lit "positive"));
    rewrite ?random_choice_run by assumption;
    cbn [fst snd conversations user_profile user_profile_table log clock
         random_floats random_indices faults tail_of app];
    rewrite ?random_choice_run by assumption;
    cbn [fst snd conversations user_profile user_profile_table log clock
         random_floats random_indices faults tail_of app];
    cbv [tail_of];
    match goal with
    | |- context [float_lt ?d float_0_3] => destruct (float_lt d float_0_3)
    end;
    rewrite ?random_choice_run by assumption;
    reflexivity.
Qed.

(** C7, as the code has it.  The reply of [generate_thoughtful_response]
    is a function of the message, the store (hence the retrieved history),
    the readings of the clock, the results of the process-wide [random]
    module and the behaviour of sqlite3: two runs that agree on these give
    the same reply.  When the retrieval succeeds the reply is
    [composed_reply]: the draws are not a parameter of the composer and are
    used as follows: one [random.random()] for the callback, only when the
    history is not empty; one [random.choice] for the opener when the
    sentiment is not neutral; one [random.choice] for the template; one
    [random.random()] for the spark and, when it is below 0.3, one
    [random.choice].  With a non-empty history, a positive message,
    [random.random()] giving 0.5 then 0.9 and both choices drawing index 0,
    the callback and the spark are skipped and the reply is opener 0
    followed by template 0 of the pool of the first topic. *)
Theorem generate_thoughtful_response_two_runs :
  (forall (user_message : str) (w1 w2 : World),
     same_inputs w1 w2 ->
     fst (generate_thoughtful_response user_message w1) =
     fst (generate_thoughtful_response user_message w2)) /\
  (forall (user_message : str) (w : World)
          (history : list ConversationMemory),
     fst (find_relevant_memories user_message 3 w) = Ok history ->
     fst (generate_thoughtful_response user_message w) =
     Ok (composed_reply user_message history (clock w 0%nat)
                        (random_floats w) (random_indices w))) /\
  (let w := Sample.world [Sample.turn "a1" "family" 5 (Sample.day 1)]
                         [1 # 2; 9 # 10] [0; 0]%nat [] in
   fst (generate_thoughtful_response (lit "I love my family") w) =
   Ok (lit "It's wonderful to hear the joy in your words! Family is such a blessing. How has your family been doing?")) /\
  (let w := Sample.world [] [1 # 10; 9 # 10] [0; 0]%nat [] in
   fst (generate_thoughtful_response (lit "hello") w) =
   Ok (lit "I'm really interested to hear more about this. What's been on your mind? Have you considered how this connects to your long-term goals?")).
Proof.
  refine (conj _ (conj _ (conj _ _))).
  - intros user_message w1 w2 H.
    exact (proj1 (generate_thoughtful_response_deterministic
                    user_message w1 w2 H)).
  - exact generate_thoughtful_response_composed.
  - vm_compute. reflexivity.
  - vm_compute. reflexivity.
Qed.

(** ** The reply is never the apology *)

Lemma lstrip_keeps_last (l : str) (c : char) :
  isspace c = false -> exists l', lstrip (l ++ [c]) = l' ++ [c].
Proof.
  intros H. induction l as [|d l IH]; simpl.
  - rewrite H. exists []. reflexivity.
  - destruct (isspace d); [exact IH|]. exists (d :: l). reflexivity.
Qed.

Lemma strip_keeps_head (c : char) (s : str) :
  isspace c = false -> exists t, strip (c :: s) = c :: t.
Proof.
  intros H. unfold strip. simpl lstrip at 2. rewrite H. simpl rev at 2.
  destruct (lstrip_keeps_last (rev s) c H) as (l' & E).
  rewrite E, rev_app_distr. exists (rev l'). reflexivity.
Qed.

Lemma generate_core_response_candidates
    (message sentiment : str) (topics : list str) (w w' : World) (core : str) :
  generate_core_response message sentiment topics w = (Ok core, w') ->
  In core core_candidates.
Proof.
  unfold generate_core_response.
  set (pool := match lookup _ responses_by_topic with
               | Some responses => responses
               | None => general_responses
               end).
  assert (In pool (general_responses :: List.map snd responses_by_topic))
    as P.
  { subst pool. destruct (lookup _ responses_by_topic) as [v|] eqn:L.
    - right. apply (lookup_in _ _ _ L).
    - left. reflexivity. }
  assert (forall starters,
            incl starters (supportive_starters ++ encouraging_starters) ->
            (starter <- random_choice starters ;;
             base <- random_choice pool ;;
             ret (starter ++ base)) w = (Ok core, w') ->
            In core core_candidates) as Two.
  { intros starters I. unfold bind.
    destruct (random_choice starters w) as [[starter|e] w1] eqn:S;
      [|discriminate].
    destruct (random_choice pool w1) as [[base|e] w2] eqn:B; [|discriminate].
    intros E. inversion E; subst.
    apply in_flat_map. exists pool. split; [exact P|].
    apply in_or_app. right. apply in_flat_map. exists starter.
    split; [apply I, (random_choice_in _ _ _ _ S)|].
    apply in_map. apply (random_choice_in _ _ _ _ B). }
  destruct (str_eqb sentiment (lit "negative")).
  - apply Two. apply incl_appl, incl_refl.
  - destruct (str_eqb sentiment (lit "positive")).
    + apply Two. apply incl_appr, incl_refl.
    + intros E. apply in_flat_map. exists pool. split; [exact P|].
      apply in_or_app. left. apply (random_choice_in _ _ _ _ E).
Qed.

Lemma reply_after_parts (user_message : str) (parts : list str)
    (w w' : World) (reply : str) :
  (core <- generate_core_response user_message
             (analyze_message_sentiment user_message)
             (extract_topics user_message) ;;
   let response_parts := parts ++ [core] in
   draw <- random_random ;;
   response_parts <-
     (if float_lt draw float_0_3 then
        spark <- generate_conversation_spark (extract_topics user_message) ;;
        ret (response_parts ++ [spark])
      else ret response_parts) ;;
   ret (strip (join (lit " ") response_parts))) w = (Ok reply, w') ->
  exists core,
    In core core_candidates /\
    (reply = strip (join (lit " ") (parts ++ [core])) \/
     exists spark,
       In spark sparks /\
       reply = strip (join (lit " ") ((parts ++ [core]) ++ [spark]))).
Proof.
  unfold bind at 1.
  destruct (generate_core_response user_message _ _ w) as [[core|e] w1]
    eqn:C; [|discriminate].
  apply generate_core_response_candidates in C.
  cbv zeta. unfold bind at 1. unfold random_random at 1.
  destruct (float_lt _ float_0_3).
  - unfold bind at 1. unfold bind at 1. unfold generate_conversation_spark.
    match goal with |- context [random_choice sparks ?v] =>
      destruct (random_choice sparks v) as [[spark|e] w2] eqn:S end;
      [|discriminate].
    apply random_choice_in in S. unfold ret. intros E. inversion E.
    exists core. split; [exact C|]. right. exists spark. auto.
  - unfold bind, ret. intros E. inversion E.
    exists core. split; [exact C|]. left. reflexivity.
Qed.

Lemma no_reply_without_callback_is_apology :
  forallb (fun reply => negb (str_eqb reply apology)) replies_without_callback
  = true.
Proof. vm_compute. reflexivity. Qed.

Lemma reply_without_callback_not_apology (core reply : str) :
  In core core_candidates ->
  reply = strip (join (lit " ") [core]) \/
  (exists spark, In spark sparks /\
                 reply = strip (join (lit " ") [core; spark])) ->
  reply <> apology.
Proof.
  intros C R.
  assert (In reply replies_without_callback) as I.
  { unfold replies_without_callback. apply in_flat_map. exists core.
    split; [exact C|]. destruct R as [-> | (spark & S & ->)].
    - left. reflexivity.
    - right. apply in_map with (f := fun spark =>
                                        strip (join (lit " ") [core; spark])).
      exact S. }
  pose proof no_reply_without_callback_is_apology as F.
  rewrite forallb_forall in F. specialize (F reply I).
  apply negb_true_iff, str_eqb_neq in F. exact F.
Qed.

Lemma reply_with_callback_not_apology (callback : str) (others : list str)
    (reply : str) :
  reply = strip (join (lit " ")
                   ((lit "This reminds me of when you mentioned " ++ callback)
                    :: others)) ->
  reply <> apology.
Proof.
  intros ->.
  assert (exists t, join (lit " ")
                      ((lit "This reminds me of when you mentioned " ++
                        callback) :: others) = 84%N :: t) as (t & ->).
  { destruct others; simpl; eexists; reflexivity. }
  destruct (strip_keeps_head 84%N t eq_refl) as (t' & E).
  intros A.
  assert (apology = 84%N :: t') as X
    by (transitivity (strip (84%N :: t)); [symmetry; exact A | exact E]).
  discriminate X.
Qed.

Lemma generate_thoughtful_response_not_apology (user_message : str)
    (w w' : World) (reply : str) :
  generate_thoughtful_response user_message w = (Ok reply, w') ->
  reply <> apology.
Proof.
  unfold generate_thoughtful_response. unfold bind at 1.
  destruct (find_relevant_memories user_message 3 w)
    as [[[|memory others]|e] w1]; [| |discriminate].
  - unfold bind at 1. unfold ret at 1. intros E.
    apply reply_after_parts in E. destruct E as (core & C & R).
    apply (reply_without_callback_not_apology core); assumption.
  - unfold bind at 1. unfold bind at 1. unfold random_random at 1.
    destruct (float_lt _ float_0_4).
    + unfold bind at 1. unfold datetime_now at 1. unfold ret at 1.
      intros E. apply reply_after_parts in E.
      destruct E as (core & _ & R).
      destruct R as [R | (spark & _ & R)];
        apply (reply_with_callback_not_apology _ _ _ R).
    + unfold ret at 1. intros E.
      apply reply_after_parts in E. destruct E as (core & C & R).
      apply (reply_without_callback_not_apology core); assumption.
Qed.

(** C9: [chat_with_may] is not atomic.  When the reply is composed, the
    insert of the turn succeeds and sqlite3 then raises on the upsert of the
    loaded profile, the caller gets the apology, while the store keeps the
    new row, whose [may_response] is the composed reply, a text other than
    the apology; the profile table is as it was and nothing is rolled
    back. *)
Theorem chat_with_may_not_atomic (message reply : str) (w w1 w2 : World)
    (p : UserProfile) (e : exn) (rest : list (option exn)) :
  generate_thoughtful_response message w = (Ok reply, w1) ->
  save_conversation message reply w1 = (Ok tt, w2) ->
  user_profile w = Some p ->
  faults w2 = Some e :: rest ->
  let after := chat_with_may message w in
  fst after = Ok apology /\
  reply <> apology /\
  (exists row,
     conversations (snd after) = conversations w ++ [row] /\
     may_response row = reply /\
     user_message row = message) /\
  user_profile_table (snd after) = user_profile_table w /\
  In (ERROR, lit "Error in chat: " ++ exn_str e) (log (snd after)).
Proof.
  intros G S P F. cbv zeta.
  pose proof (generate_thoughtful_response_keeps user_profile message
                (fun _ _ _ _ _ _ _ _ _ _ _ _ => eq_refl) w) as K1.
  pose proof (generate_thoughtful_response_keeps conversations message
                (fun _ _ _ _ _ _ _ _ _ _ _ _ => eq_refl) w) as K2.
  pose proof (generate_thoughtful_response_keeps user_profile_table message
                (fun _ _ _ _ _ _ _ _ _ _ _ _ => eq_refl) w) as K3.
  rewrite G in K1, K2, K3. simpl in K1, K2, K3.
  destruct (save_conversation_appended message reply w1 w2 S)
    as (ident & _ & _ & C).
  pose proof (save_conversation_run message reply w1) as Run.
  cbv zeta in Run. rewrite S in Run. destruct Run as (P2 & T2 & _).
  simpl in P2, T2.
  assert (user_profile w2 = Some p) as P2' by congruence.
  pose proof (update_user_profile_loaded message w2 p P2') as U.
  cbv zeta in U. rewrite F in U. destruct U as (_ & C3 & X & T3).
  destruct (update_user_profile message w2) as [[[]|e'] w3] eqn:U;
    simpl in X, C3, T3; [discriminate|].
  inversion X; subst e'.
  pose proof (chat_with_may_try_upsert_raises _ _ _ _ _ _ _ G S U) as T.
  destruct (chat_with_may_caught _ _ _ _ T) as (A & L & C4 & _ & T4).
  refine (conj A (conj _ (conj _ (conj _ _)))).
  - apply (generate_thoughtful_response_not_apology message w w1 reply G).
  - exists (saved_row message reply ident (clock w1 1%nat)).
    rewrite C4, C3, C, K2. repeat split.
  - rewrite T4, T3, T2, K3. reflexivity.
  - rewrite L. apply in_or_app. right. left. reflexivity.
Qed.

(** ** Topics of a message *)

Lemma NoDup_map_filter {A B} (g : A -> B) (f : A -> bool) (l : list A) :
  NoDup (List.map g l) -> NoDup (List.map g (filter f l)).
Proof.
  induction l as [|a l IH]; simpl; intros D; [constructor|].
  inversion D as [|? ? N D']; subst.
  destruct (f a); simpl; [|apply IH; exact D'].
  constructor; [|apply IH; exact D'].
  intros I. apply N. apply in_map_iff in I. destruct I as (x & E & I).
  apply filter_In in I. apply in_map_iff. exists x. tauto.
Qed.

Lemma topic_keywords_distinct : NoDup (List.map fst topic_keywords).
Proof.
  repeat (constructor;
          [simpl; intros H;
           repeat (destruct H as [H | H]; [discriminate H|]); exact H|]).
  constructor.
Qed.

(** X1: the topics extracted from a message are pairwise distinct labels of
    the table or the single label "general": at most six of them, and
    "general" never comes with another label. *)
Theorem extract_topics_distinct_labels (message : str) :
  NoDup (extract_topics message) /\
  (forall label, In label (extract_topics message) ->
     In label [lit "general"; lit "family"; lit "work"; lit "learning";
               lit "faith"; lit "relationships"; lit "health"]) /\
  (In (lit "general") (extract_topics message) ->
   extract_topics message = [lit "general"]) /\
  (1 <= length (extract_topics message) <= 6)%nat.
Proof.
  assert (NoDup (matching_topics message)) as D
    by (apply NoDup_map_filter, topic_keywords_distinct).
  assert (length (matching_topics message) <= 6)%nat as L.
  { unfold matching_topics. rewrite length_map.
    apply (filter_length_le _ topic_keywords). }
  assert (~ In (lit "general") (matching_topics message)) as G.
  { intros I. unfold matching_topics in I. apply in_map_iff in I.
    destruct I as (item & E & I). apply filter_In in I.
    destruct I as (I & _). apply (in_map fst) in I. rewrite E in I.
    simpl in I. repeat (destruct I as [I | I]; [discriminate I|]). exact I. }
  refine (conj _ (conj (extract_topics_labels message) (conj _ _)));
    rewrite extract_topics_matching_or_general;
    destruct (matching_topics message) as [|first others].
  - repeat constructor. intros [].
  - exact D.
  - reflexivity.
  - intros I. contradiction.
  - simpl. lia.
  - simpl in *. lia.
Qed.

(** ** The callback clause *)

(** X11: the time phrase of the callback goes by elapsed time, not by the
    calendar: less than 24 hours is "earlier today", the next 24 hours
    "yesterday", then "2 days ago" to "6 days ago", and from seven days on
    "recently"; a memory stamped later than the present gives a negative
    count of days. *)
Theorem callback_phrase_by_elapsed_time (now stamped : datetime) :
  let day := microseconds_per_day in
  let elapsed := now - stamped in
  let phrase := time_reference (days_between now stamped) in
  (0 <= elapsed < day -> phrase = lit "earlier today") /\
  (day <= elapsed < 2 * day -> phrase = lit "yesterday") /\
  (2 * day <= elapsed < 7 * day ->
   2 <= elapsed / day <= 6 /\
   phrase = str_of_int (elapsed / day) ++ lit " days ago") /\
  (7 * day <= elapsed -> phrase = lit "recently") /\
  (elapsed < 0 ->
   elapsed / day < 0 /\
   phrase = str_of_int (elapsed / day) ++ lit " days ago").
Proof.
  cbv zeta. unfold days_between, time_reference.
  assert (0 < microseconds_per_day) as P by reflexivity.
  generalize dependent microseconds_per_day. intros day P.
  set (q := (now - stamped) / day).
  refine (conj _ (conj _ (conj _ (conj _ _)))); intros H.
  - assert (q = 0) as -> by (apply Z.div_small; lia). reflexivity.
  - assert (q = 1) as ->.
    { subst q. symmetry. apply (Z.div_unique _ _ 1 (now - stamped - day)); lia. }
    reflexivity.
  - assert (2 <= q <= 6) as B.
    { subst q. split.
      - apply Z.div_le_lower_bound; lia.
      - assert ((now - stamped) / day < 7); [|lia].
        apply Z.div_lt_upper_bound; lia. }
    split; [exact B|].
    destruct (q =? 0) eqn:E0; [apply Z.eqb_eq in E0; lia|].
    destruct (q =? 1) eqn:E1; [apply Z.eqb_eq in E1; lia|].
    destruct (q <? 7) eqn:E7; [reflexivity | apply Z.ltb_ge in E7; lia].
  - assert (7 <= q) as B by (subst q; apply Z.div_le_lower_bound; lia).
    destruct (q =? 0) eqn:E0; [apply Z.eqb_eq in E0; lia|].
    destruct (q =? 1) eqn:E1; [apply Z.eqb_eq in E1; lia|].
    destruct (q <? 7) eqn:E7; [apply Z.ltb_lt in E7; lia | reflexivity].
  - assert (q < 0) as B by (subst q; apply Z.div_lt_upper_bound; lia).
    split; [exact B|].
    destruct (q =? 0) eqn:E0; [apply Z.eqb_eq in E0; lia|].
    destruct (q =? 1) eqn:E1; [apply Z.eqb_eq in E1; lia|].
    destruct (q <? 7) eqn:E7; [reflexivity | apply Z.ltb_ge in E7; lia].
Qed.

(** ** Shape of the reply *)

Lemma lstrip_head (s : str) (c : char) (t : str) :
  lstrip s = c :: t -> isspace c = false.
Proof.
  induction s as [|d s IH]; simpl; [discriminate|].
  destruct (isspace d) eqn:E; [exact IH|].
  intros H. inversion H; subst. exact E.
Qed.

Lemma strip_edges (s : str) :
  (forall c t, strip s = c :: t -> isspace c = false) /\
  (forall t c, strip s = t ++ [c] -> isspace c = false).
Proof.
  split.
  - intros c t H. unfold strip in H.
    destruct (lstrip s) as [|d x] eqn:X; [discriminate H|].
    pose proof (lstrip_head _ _ _ X) as D.
    destruct (strip_keeps_head d x D) as (t' & E).
    unfold strip in E. simpl lstrip in E at 2. rewrite D in E.
    rewrite E in H. inversion H; subst. exact D.
  - intros t c H. unfold strip in H.
    apply (f_equal (@rev char)) in H.
    rewrite rev_involutive, rev_app_distr in H. simpl in H.
    apply (lstrip_head _ _ _ H).
Qed.

Lemma generate_thoughtful_response_reply_cases (user_message : str)
    (w w' : World) (reply : str) :
  generate_thoughtful_response user_message w = (Ok reply, w') ->
  In reply replies_without_callback \/
  exists parts, reply = strip (84%N :: parts).
Proof.
  assert (forall core r,
            In core core_candidates ->
            r = strip (join (lit " ") [core]) \/
            (exists spark, In spark sparks /\
                           r = strip (join (lit " ") [core; spark])) ->
            In r replies_without_callback) as Plain.
  { intros core r C R. unfold replies_without_callback.
    apply in_flat_map. exists core. split; [exact C|].
    destruct R as [-> | (spark & S & ->)].
    - left. reflexivity.
    - right. apply in_map with (f := fun spark =>
                                        strip (join (lit " ") [core; spark])).
      exact S. }
  assert (forall callback others r,
            r = strip (join (lit " ")
                         ((lit "This reminds me of when you mentioned " ++
                           callback) :: others)) ->
            exists parts, r = strip (84%N :: parts)) as Called.
  { intros callback others r ->.
    destruct others; simpl; eexists; reflexivity. }
  unfold generate_thoughtful_response. unfold bind at 1.
  destruct (find_relevant_memories user_message 3 w)
    as [[[|memory others]|e] w1]; [| |discriminate].
  - unfold bind at 1. unfold ret at 1. intros E.
    apply reply_after_parts in E. destruct E as (core & C & R).
    left. apply (Plain core); assumption.
  - unfold bind at 1. unfold bind at 1. unfold random_random at 1.
    destruct (float_lt _ float_0_4).
    + unfold bind at 1. unfold datetime_now at 1. unfold ret at 1.
      intros E. apply reply_after_parts in E.
      destruct E as (core & _ & R). right.
      destruct R as [R | (spark & _ & R)]; apply (Called _ _ _ R).
    + unfold ret at 1. intros E.
      apply reply_after_parts in E. destruct E as (core & C & R).
      left. apply (Plain core); assumption.
Qed.

Lemma replies_without_callback_not_empty :
  forallb (fun reply => match reply with [] => false | _ :: _ => true end)
          replies_without_callback = true.
Proof. vm_compute. reflexivity. Qed.

(** X12: a composed reply is never empty and neither begins nor ends with
    white space. *)
Theorem generate_thoughtful_response_reply_shape (user_message : str)
    (w w' : World) (reply : str) :
  generate_thoughtful_response user_message w = (Ok reply, w') ->
  reply <> [] /\
  (forall c rest, reply = c :: rest -> isspace c = false) /\
  (forall front c, reply = front ++ [c] -> isspace c = false).
Proof.
  intros G.
  assert (exists s, reply = strip s) as (s & S).
  { destruct (generate_thoughtful_response_reply_cases _ _ _ _ G)
      as [I | (parts & E)].
    - unfold replies_without_callback in I. apply in_flat_map in I.
      destruct I as (core & _ & [<- | I]); [eexists; reflexivity|].
      apply in_map_iff in I. destruct I as (spark & <- & _).
      eexists; reflexivity.
    - eexists; exact E. }
  split; [|subst reply; apply strip_edges].
  destruct (generate_thoughtful_response_reply_cases _ _ _ _ G)
    as [I | (parts & E)].
  - pose proof replies_without_callback_not_empty as F.
    rewrite forallb_forall in F. specialize (F reply I).
    destruct reply; [discriminate F | discriminate].
  - destruct (strip_keeps_head 84%N parts eq_refl) as (t & T).
    intros N. rewrite N in E.
    assert (@nil char = 84%N :: t) as X
      by (transitivity (strip (84%N :: parts)); [exact E | exact T]).
    discriminate X.
Qed.

(** ** Reading leaves the state alone *)

Lemma keeps_all_but_streams {A} (m : M A) :
  (forall X (f : World -> X),
     (forall c t p l k1 k2 r1 r2 i1 i2 fs1 fs2,
        f (mkWorld c t p l k1 r1 i1 fs1) = f (mkWorld c t p l k2 r2 i2 fs2)) ->
     keeps f m) ->
  forall w,
    conversations (snd (m w)) = conversations w /\
    user_profile_table (snd (m w)) = user_profile_table w /\
    user_profile (snd (m w)) = user_profile w /\
    log (snd (m w)) = log w.
Proof.
  intros K w. repeat split; apply K; reflexivity.
Qed.

(** X16: retrieving memories, composing a reply, loading the profile and
    listing memories write nothing: the two tables, the loaded profile and
    the log are as before, whether the call returns or raises. *)
Theorem reading_leaves_the_state :
  forall (w : World),
    let unchanged (w' : World) :=
      conversations w' = conversations w /\
      user_profile_table w' = user_profile_table w /\
      user_profile w' = user_profile w /\
      log w' = log w in
    (forall message limit,
       unchanged (snd (find_relevant_memories message limit w))) /\
    (forall user_message,
       unchanged (snd (generate_thoughtful_response user_message w))) /\
    unchanged (snd (load_user_profile w)) /\
    (forall topic limit, unchanged (snd (get_memories topic limit w))).
Proof.
  intros w. cbv zeta. refine (conj _ (conj _ (conj _ _))).
  - intros message limit.
    apply (keeps_all_but_streams (find_relevant_memories message limit)).
    intros X f H. apply find_relevant_memories_keeps. intros. apply H.
  - intros user_message.
    apply (keeps_all_but_streams (generate_thoughtful_response user_message)).
    intros X f H. apply generate_thoughtful_response_keeps. exact H.
  - apply (keeps_all_but_streams load_user_profile).
    intros X f H. unfold load_user_profile, get_user_profile_table.
    apply keeps_bind; [apply keeps_sql_statement; intros; apply H|].
    intros. keeps_auto; intros v; reflexivity.
  - intros topic limit.
    apply (keeps_all_but_streams (get_memories topic limit)).
    intros X f H. unfold get_memories, get_conversations.
    apply keeps_bind; [apply keeps_sql_statement; intros; apply H|].
    intros. keeps_auto; intros v; reflexivity.
Qed.

(** ** The memory the callback mentions *)

Lemma flat_map_first {A B} (f : A -> list B) (l : list A) (x : B)
    (rest : list B) :
  flat_map f l = x :: rest ->
  exists before a after rest',
    l = before ++ a :: after /\
    (forall b, In b before -> f b = []) /\
    f a = x :: rest'.
Proof.
  induction l as [|a l IH]; simpl; [discriminate|].
  destruct (f a) as [|y ys] eqn:E.
  - simpl. intros H. destruct (IH H) as (before & a' & after & r & L & N & F).
    exists (a :: before), a', after, r. subst l.
    refine (conj eq_refl (conj _ F)).
    intros b [<- | I]; [exact E | apply N; exact I].
  - simpl. intros H. inversion H; subst.
    exists [], a, l, ys. refine (conj eq_refl (conj _ E)). intros b [].
Qed.

Lemma row_before_transitive (a b c : ConversationMemory) :
  row_before a b = true -> row_before b c = true -> row_before a c = true.
Proof. rewrite !row_before_order. lia. Qed.

Lemma order_by_first {A} (before : A -> A -> bool) (rows : list A) (x : A)
    (rest : list A) :
  (forall a b, before a b = false -> before b a = true) ->
  (forall a b c, before a b = true -> before b c = true ->
                 before a c = true) ->
  Sql.order_by before rows = x :: rest ->
  In x rows /\ forall y, In y rows -> before x y = true.
Proof.
  intros total trans E.
  pose proof (order_by_permutation before rows) as P. rewrite E in P.
  split; [apply (Permutation_in _ P); left; reflexivity|].
  pose proof (order_by_sorted before rows total) as S. rewrite E in S.
  apply Sorted_StronglySorted in S; [|intros a b c; apply trans].
  inversion S as [|? ? _ F]; subst.
  intros y I. apply (Permutation_in _ (Permutation_sym P)) in I.
  destruct I as [<- | I].
  - destruct (before x x) eqn:B; [reflexivity|].
    pose proof (total x x B) as B'. congruence.
  - rewrite Forall_forall in F. apply F. exact I.
Qed.

Lemma select_rows_empty (label : str) (limit : Z)
    (rows : list ConversationMemory) :
  0 < limit ->
  select_rows label limit rows = [] ->
  forall row, In row rows -> row_matches label row = false.
Proof.
  intros L E row I. unfold select_rows in E.
  rewrite limit_firstn in E by lia.
  destruct (Sql.order_by row_before (filter (row_matches label) rows))
    as [|x xs] eqn:O.
  - destruct (row_matches label row) eqn:Mt; [|reflexivity].
    assert (In row (filter (row_matches label) rows)) as F
      by (apply filter_In; auto).
    apply (Permutation_in _ (Permutation_sym (order_by_permutation
                                               row_before _))) in F.
    rewrite O in F. destruct F.
  - destruct (Z.to_nat limit) eqn:Z0; [lia | discriminate E].
Qed.

(** X17: the memory the callback mentions, the first one retrieved, is a
    stored turn that matches the first extracted topic with any matching
    turn at all, and among the turns matching that topic none has a higher
    importance, nor the same importance and a later timestamp. *)
Theorem callback_memory_is_top_ranked (message : str) (w : World)
    (memory : ConversationMemory) (others : list ConversationMemory) :
  healthy w ->
  fst (find_relevant_memories message 3 w) = Ok (memory :: others) ->
  exists earlier label later row,
    extract_topics message = earlier ++ label :: later /\
    (forall l r, In l earlier -> In r (conversations w) ->
                 row_matches l r = false) /\
    In row (conversations w) /\
    row_matches label row = true /\
    memory = memory_of_row row /\
    forall other,
      In other (conversations w) -> row_matches label other = true ->
      importance other < importance row \/
      importance other = importance row /\ timestamp other <= timestamp row.
Proof.
  intros H F.
  destruct (find_relevant_memories_healthy message 3 w H eq_refl)
    as (w' & E & _ & _).
  rewrite E in F. simpl in F. inversion F as [S]. clear F E.
  rewrite slice_to_firstn in S by lia.
  destruct (flat_map _ (extract_topics message)) as [|m ms] eqn:FM;
    [discriminate S|].
  simpl in S. inversion S; subst m. clear S.
  destruct (flat_map_first _ _ _ _ FM)
    as (earlier & label & later & rest & T & N & A).
  exists earlier, label, later.
  unfold select_rows in A. rewrite limit_firstn in A by lia.
  destruct (Sql.order_by row_before
              (filter (row_matches label) (conversations w)))
    as [|row rows] eqn:O; [discriminate A|].
  simpl in A. injection A as M _. subst memory.
  destruct (order_by_first row_before _ _ _ row_before_total
              row_before_transitive O) as (I & Top).
  apply filter_In in I. destruct I as (I & Mt).
  exists row. refine (conj T (conj _ (conj I (conj Mt (conj eq_refl _))))).
  - intros l r Il Ir.
    apply (select_rows_empty l 3 (conversations w)); [lia | | exact Ir].
    specialize (N l Il). destruct (select_rows l 3 (conversations w));
      [reflexivity | discriminate N].
  - intros other Io Mo.
    assert (row_before row other = true) as B
      by (apply Top; apply filter_In; auto).
    apply row_before_order in B. lia.
Qed.

(** ** The course of a call of [chat_with_may] *)

Lemma chat_with_may_cases (user_message : str) (w : World) :
  (exists e w1,
     generate_thoughtful_response user_message w = (Raise e, w1) /\
     chat_with_may_try user_message w = (Raise e, w1)) \/
  (exists reply w1,
     generate_thoughtful_response user_message w = (Ok reply, w1) /\
     ((exists e w2,
         save_conversation user_message reply w1 = (Raise e, w2) /\
         chat_with_may_try user_message w = (Raise e, w2)) \/
      (exists w2,
         save_conversation user_message reply w1 = (Ok tt, w2) /\
         ((exists e w3,
             update_user_profile user_message w2 = (Raise e, w3) /\
             chat_with_may_try user_message w = (Raise e, w3)) \/
          (exists w3,
             update_user_profile user_message w2 = (Ok tt, w3) /\
             chat_with_may_try user_message w = (Ok reply, w3)))))).
Proof.
  destruct (generate_thoughtful_response user_message w) as [[reply|e] w1]
    eqn:G.
  2:{ left. exists e, w1. split; [reflexivity|].
      unfold chat_with_may_try. apply bind_raise. exact G. }
  right. exists reply, w1. split; [reflexivity|].
  destruct (save_conversation user_message reply w1) as [[[]|e] w2] eqn:S.
  2:{ left. exists e, w2. split; [reflexivity|].
      apply (chat_with_may_try_insert_raises _ _ _ _ _ _ G S). }
  right. exists w2. split; [reflexivity|].
  destruct (update_user_profile user_message w2) as [[[]|e] w3] eqn:U.
  - right. exists w3. split; [reflexivity|].
    unfold chat_with_may_try. rewrite (bind_ok _ _ _ _ _ G).
    rewrite (bind_ok _ _ _ _ _ S). rewrite (bind_ok _ _ _ _ _ U).
    reflexivity.
  - left. exists e, w3. split; [reflexivity|].
    apply (chat_with_may_try_upsert_raises _ _ _ _ _ _ _ G S U).
Qed.

Lemma chat_with_may_final (user_message : str) (w w' : World)
    (r : result str) :
  chat_with_may_try user_message w = (r, w') ->
  conversations (snd (chat_with_may user_message w)) = conversations w' /\
  user_profile (snd (chat_with_may user_message w)) = user_profile w' /\
  user_profile_table (snd (chat_with_may user_message w)) =
    user_profile_table w' /\
  fst (chat_with_may user_message w) =
    match r with Ok reply => Ok reply | Raise _ => Ok apology end /\
  log (snd (chat_with_may user_message w)) =
    match r with
    | Ok _ => log w'
    | Raise e => log w' ++ [error_entry e]
    end.
Proof.
  intros T. pose proof (chat_with_may_outcome user_message w) as O.
  rewrite T in O. destruct r as [reply|e].
  - rewrite O. simpl. auto.
  - destruct O as (A & L & C & P & U). auto.
Qed.

Lemma save_conversation_raised (user_message may_response : str)
    (w w' : World) (e : exn) :
  save_conversation user_message may_response w = (Raise e, w') ->
  conversations w' = conversations w /\ log w' = log w.
Proof.
  unfold save_conversation, insert_conversation, logger, sql_statement,
    get_conversations, set_conversations, raise, datetime_now, ret, bind.
  cbn [fst snd conversations user_profile user_profile_table log
       clock random_floats random_indices faults id tail_of].
  destruct (encode _) as [bytes|];
    [|intros E; inversion E; subst; simpl; auto].
  destruct (faults w) as [|[x|] rest];
    cbn [fst snd conversations user_profile user_profile_table log
         clock random_floats random_indices faults id];
    try (intros E; inversion E; subst; simpl; auto; fail);
    destruct (existsb _ (conversations w));
    intros E; inversion E; subst; simpl; auto.
Qed.

Lemma save_conversation_saved (user_message may_response : str)
    (w w' : World) :
  save_conversation user_message may_response w = (Ok tt, w') ->
  log w' = log w ++ [saved_entry user_message] /\
  faults w' = tl (faults w) /\
  user_profile w' = user_profile w /\
  user_profile_table w' = user_profile_table w /\
  (forall n, clock w' n = clock w (S (S n))).
Proof.
  unfold save_conversation, insert_conversation, logger, sql_statement,
    get_conversations, set_conversations, raise, datetime_now, ret, bind,
    saved_entry.
  cbn [fst snd conversations user_profile user_profile_table log
       clock random_floats random_indices faults id tail_of topic].
  destruct (encode _) as [bytes|]; [|discriminate].
  destruct (faults w) as [|[x|] rest];
    cbn [fst snd conversations user_profile user_profile_table log
         clock random_floats random_indices faults id];
    try discriminate;
    destruct (existsb _ (conversations w)); try discriminate;
    intros E; inversion E; subst; simpl; auto.
Qed.

Lemma update_user_profile_keeps_store_and_log (user_message : str)
    (w : World) :
  conversations (snd (update_user_profile user_message w)) = conversations w /\
  log (snd (update_user_profile user_message w)) = log w.
Proof.
  destruct (user_profile w) as [p|] eqn:P.
  - destruct (update_user_profile_run user_message w p P)
      as (w' & E & _ & _ & C & _ & L).
    rewrite E. unfold save_user_profile, bind, sql_statement, raise.
    destruct (faults w') as [|[e|] rest]; simpl; auto.
  - rewrite (update_user_profile_not_loaded _ _ P). auto.
Qed.

(** What a call does to the store of turns. *)
Lemma chat_with_may_store_step (user_message : str) (w : World) :
  let after := chat_with_may user_message w in
  (conversations (snd after) = conversations w /\
   fst after = Ok apology) \/
  (exists reply ident stamped,
     conversations (snd after) =
       conversations w ++ [saved_row user_message reply ident stamped] /\
     ~ In ident (List.map id (conversations w)) /\
     reply <> apology /\
     (fst after = Ok reply \/ fst after = Ok apology)).
Proof.
  cbv zeta.
  pose proof (generate_thoughtful_response_keeps conversations user_message
                (fun _ _ _ _ _ _ _ _ _ _ _ _ => eq_refl) w) as K.
  destruct (chat_with_may_cases user_message w)
    as [(e & w1 & G & T) |
        (reply & w1 & G &
         [(e & w2 & S & T) |
          (w2 & S & [(e & w3 & U & T) | (w3 & U & T)])])];
    rewrite G in K; simpl in K;
    destruct (chat_with_may_final _ _ _ _ T) as (C & _ & _ & A & _).
  - left. rewrite C, K. auto.
  - left. destruct (save_conversation_raised _ _ _ _ _ S) as (C2 & _).
    rewrite C, C2, K. auto.
  - right. destruct (save_conversation_appended _ _ _ _ S)
      as (ident & _ & N & C2).
    pose proof (update_user_profile_keeps_store_and_log user_message w2)
      as (C3 & _).
    rewrite U in C3. simpl in C3.
    exists reply, ident, (clock w1 1%nat). rewrite C, C3, C2, K.
    rewrite K in N.
    refine (conj eq_refl (conj N (conj _ (or_intror A)))).
    apply (generate_thoughtful_response_not_apology _ _ _ _ G).
  - right. destruct (save_conversation_appended _ _ _ _ S)
      as (ident & _ & N & C2).
    pose proof (update_user_profile_keeps_store_and_log user_message w2)
      as (C3 & _).
    rewrite U in C3. simpl in C3.
    exists reply, ident, (clock w1 1%nat). rewrite C, C3, C2, K.
    rewrite K in N.
    refine (conj eq_refl (conj N (conj _ (or_introl A)))).
    apply (generate_thoughtful_response_not_apology _ _ _ _ G).
Qed.

(** ** Invariants of the store *)

Lemma saved_row_invariant (user_message may_response ident : str)
    (stamped : datetime) :
  turn_invariant (saved_row user_message may_response ident stamped).
Proof.
  unfold turn_invariant.
  refine (conj _ (conj _ (conj _ (conj _ (conj _ _))))).
  - cbn [saved_row sentiment]. unfold analyze_message_sentiment.
    destruct (_ <? _); [left; reflexivity|].
    destruct (_ <? _); [right; left; reflexivity|].
    right; right; left; reflexivity.
  - cbn [saved_row importance]. unfold calculate_importance.
    pose proof (importance_before_clamp_range user_message
                  (extract_topics user_message)
                  (analyze_message_sentiment user_message)). lia.
  - cbn [saved_row context_tags].
    rewrite extract_topics_matching_or_general.
    destruct (matching_topics user_message) as [|first others] eqn:E.
    + repeat constructor. intros [].
    + rewrite <- E. apply NoDup_map_filter, topic_keywords_distinct.
  - cbn [saved_row context_tags]. apply extract_topics_labels.
  - cbn [saved_row context_tags topic].
    rewrite extract_topics_matching_or_general.
    destruct (matching_topics user_message); reflexivity.
  - apply saved_row_tags_lower_case.
Qed.

(** X2: every turn [chat_with_may] stores has one of the three sentiment
    labels, an importance from 5 to 10, pairwise distinct context tags
    taken from the seven labels, the first tag as its primary topic, and a
    lower-case serialized tag list; a store of such turns stays one over
    any sequence of calls. *)
Theorem stored_turns_keep_the_invariant (messages : list str) (w : World) :
  Forall turn_invariant (conversations w) ->
  Forall turn_invariant (conversations (chat_all messages w)).
Proof.
  revert w; induction messages as [|message messages IH]; intros w H;
    cbn [chat_all]; [exact H|].
  apply IH.
  destruct (chat_with_may_store_step message w)
    as [(C & _) | (reply & ident & stamped & C & _)]; rewrite C.
  - exact H.
  - apply Forall_app. split; [exact H|].
    constructor; [apply saved_row_invariant | constructor].
Qed.

Lemma chat_with_may_table_step (user_message : str) (w : World) :
  user_profile_table (snd (chat_with_may user_message w)) =
    user_profile_table w.
Proof.
  pose proof (generate_thoughtful_response_keeps user_profile_table
                user_message (fun _ _ _ _ _ _ _ _ _ _ _ _ => eq_refl) w) as K.
  destruct (chat_with_may_cases user_message w)
    as [(e & w1 & G & T) |
        (reply & w1 & G &
         [(e & w2 & S & T) |
          (w2 & S & [(e & w3 & U & T) | (w3 & U & T)])])];
    rewrite G in K; simpl in K;
    destruct (chat_with_may_final _ _ _ _ T) as (_ & _ & C & _ & _);
    rewrite C.
  - exact K.
  - pose proof (save_conversation_run user_message reply w1) as R.
    cbv zeta in R. rewrite S in R. destruct R as (_ & R & _). simpl in R.
    congruence.
  - destruct (save_conversation_saved _ _ _ _ S) as (_ & _ & _ & T2 & _).
    destruct (user_profile w2) as [p|] eqn:P.
    + pose proof (update_user_profile_loaded user_message w2 p P) as L.
      cbv zeta in L. rewrite U in L. simpl in L.
      destruct L as (_ & _ & L).
      destruct (faults w2) as [|[x|] rest]; destruct L as (L1 & L2);
        congruence.
    + rewrite (update_user_profile_not_loaded _ _ P) in U. discriminate U.
  - destruct (save_conversation_saved _ _ _ _ S) as (_ & _ & _ & T2 & _).
    destruct (user_profile w2) as [p|] eqn:P.
    + pose proof (update_user_profile_loaded user_message w2 p P) as L.
      cbv zeta in L. rewrite U in L. simpl in L.
      destruct L as (_ & _ & L).
      destruct (faults w2) as [|[x|] rest]; destruct L as (L1 & L2);
        discriminate L1.
    + rewrite (update_user_profile_not_loaded _ _ P) in U.
      inversion U; subst. congruence.
Qed.

(** X3: the primary keys stay unique.  Over any sequence of calls of
    [chat_with_may], a store of turns with pairwise distinct identifiers
    keeps pairwise distinct identifiers, and a profile table with pairwise
    distinct names keeps pairwise distinct names. *)
Theorem primary_keys_stay_unique (messages : list str) (w : World) :
  (NoDup (List.map id (conversations w)) ->
   NoDup (List.map id (conversations (chat_all messages w)))) /\
  (NoDup (List.map name (user_profile_table w)) ->
   NoDup (List.map name (user_profile_table (chat_all messages w)))).
Proof.
  revert w; induction messages as [|message messages IH]; intros w;
    cbn [chat_all]; [split; auto|].
  destruct (IH (snd (chat_with_may message w))) as (IH1 & IH2).
  split; intros D.
  - apply IH1.
    destruct (chat_with_may_store_step message w)
      as [(C & _) | (reply & ident & stamped & C & N & _)]; rewrite C.
    + exact D.
    + rewrite map_app. apply NoDup_app; [exact D | |].
      * repeat constructor. intros [].
      * intros x I [<- | []]. apply N. exact I.
  - apply IH2. rewrite (chat_with_may_table_step message w). exact D.
Qed.

(** X4: the store of turns is append-only.  A sequence of calls of
    [chat_with_may] leaves the stored rows as they were, in place, and adds
    at most one row per call, each recording one of the messages and a
    reply that is not the apology. *)
Theorem conversations_append_only (messages : list str) (w : World) :
  exists added,
    conversations (chat_all messages w) = conversations w ++ added /\
    (length added <= length messages)%nat /\
    Forall (fun row => In (user_message row) messages /\
                       may_response row <> apology) added.
Proof.
  revert w; induction messages as [|message messages IH]; intros w;
    cbn [chat_all].
  - exists []. rewrite app_nil_r. repeat constructor.
  - destruct (IH (snd (chat_with_may message w))) as (added & E & L & F).
    assert (Forall (fun row => In (user_message row) (message :: messages) /\
                               may_response row <> apology) added) as F'.
    { rewrite Forall_forall in *. intros row I.
      destruct (F row I). split; [right|]; assumption. }
    destruct (chat_with_may_store_step message w)
      as [(C & _) | (reply & ident & stamped & C & _ & R & _)];
      rewrite C in E.
    + exists added. simpl. refine (conj E (conj _ F')). lia.
    + exists (saved_row message reply ident stamped :: added).
      rewrite E, <- app_assoc. simpl.
      refine (conj eq_refl (conj _ _)); [lia|].
      constructor; [|exact F']. split; [left; reflexivity | exact R].
Qed.

(** ** What the returned text tells *)

(** X10: [chat_with_may] returns the apology exactly when its [try] body
    raised, and then the last entry of the log is the error.  A reply other
    than the apology means the turn is stored: the store gained one row
    with the message and the returned reply, and the log gained the entry
    of the saved turn and no error. *)
Theorem apology_exactly_on_failure (user_message : str) (w : World) :
  let after := chat_with_may user_message w in
  (fst after = Ok apology <->
   exists e w', chat_with_may_try user_message w = (Raise e, w')) /\
  (fst after = Ok apology ->
   exists e entries,
     log (snd after) = entries ++ [(ERROR, lit "Error in chat: " ++ exn_str e)]) /\
  (forall reply,
     fst after = Ok reply -> reply <> apology ->
     (exists ident stamped,
        conversations (snd after) =
        conversations w ++ [saved_row user_message reply ident stamped]) /\
     log (snd after) = log w ++ [saved_entry user_message]).
Proof.
  cbv zeta.
  pose proof (generate_thoughtful_response_keeps conversations user_message
                (fun _ _ _ _ _ _ _ _ _ _ _ _ => eq_refl) w) as K.
  pose proof (generate_thoughtful_response_keeps log user_message
                (fun _ _ _ _ _ _ _ _ _ _ _ _ => eq_refl) w) as KL.
  destruct (chat_with_may_cases user_message w)
    as [(e & w1 & G & T) |
        (reply & w1 & G &
         [(e & w2 & S & T) |
          (w2 & S & [(e & w3 & U & T) | (w3 & U & T)])])];
    rewrite G in K, KL; simpl in K, KL;
    destruct (chat_with_may_final _ _ _ _ T) as (C & _ & _ & A & L).
  1-3: (refine (conj (conj (fun _ => ex_intro _ e (ex_intro _ _ T))
                           (fun _ => A))
                     (conj (fun _ => ex_intro _ e (ex_intro _ _ L)) _));
        intros r E N; rewrite A in E; inversion E; subst; contradiction).
  pose proof (generate_thoughtful_response_not_apology _ _ _ _ G) as NA.
  refine (conj (conj _ _) (conj _ _)).
  - intros E. rewrite A in E. inversion E. contradiction.
  - intros (e & w' & E). rewrite T in E. discriminate E.
  - intros E. rewrite A in E. inversion E. contradiction.
  - intros r E _. rewrite A in E. inversion E; subst r.
    destruct (save_conversation_appended _ _ _ _ S) as (ident & _ & _ & C2).
    destruct (save_conversation_saved _ _ _ _ S) as (L2 & _).
    pose proof (update_user_profile_keeps_store_and_log user_message w2)
      as (C3 & L3).
    rewrite U in C3, L3. simpl in C3, L3.
    split.
    + exists ident, (clock w1 1%nat). rewrite C, C3, C2, K. reflexivity.
    + rewrite L, L3, L2, KL. reflexivity.
Qed.

(** ** A message that cannot be encoded *)

Lemma encode_surrogate (s t : str) :
  existsb is_surrogate s = true -> encode (s ++ t) = None.
Proof.
  induction s as [|c s IH]; simpl; [discriminate|].
  destruct (is_surrogate c) eqn:E; simpl.
  - intros _. unfold utf8_char. unfold is_surrogate in E.
    apply andb_true_iff in E. destruct E as (E1 & E2).
    apply N.leb_le in E1. apply N.leb_le in E2.
    destruct (c <? 128)%N eqn:A; [apply N.ltb_lt in A; lia|].
    destruct (c <? 2048)%N eqn:B; [apply N.ltb_lt in B; lia|].
    assert (((55296 <=? c) && (c <=? 57343))%N = true) as ->
      by (apply andb_true_iff; split; apply N.leb_le; assumption).
    reflexivity.
  - intros H. rewrite (IH H). destruct (utf8_char c); reflexivity.
Qed.

(** X6: a message holding a surrogate code point is never stored.  The
    identifier cannot be computed, so whatever the state [chat_with_may]
    returns the apology and leaves both tables and the loaded profile as
    they were. *)
Theorem surrogate_message_is_never_stored (user_message : str) (w : World) :
  existsb is_surrogate user_message = true ->
  let after := chat_with_may user_message w in
  fst after = Ok apology /\
  conversations (snd after) = conversations w /\
  user_profile_table (snd after) = user_profile_table w /\
  user_profile (snd after) = user_profile w.
Proof.
  intros H. cbv zeta.
  pose proof (generate_thoughtful_response_keeps conversations user_message
                (fun _ _ _ _ _ _ _ _ _ _ _ _ => eq_refl) w) as K1.
  pose proof (generate_thoughtful_response_keeps user_profile_table
                user_message (fun _ _ _ _ _ _ _ _ _ _ _ _ => eq_refl) w) as K2.
  pose proof (generate_thoughtful_response_keeps user_profile user_message
                (fun _ _ _ _ _ _ _ _ _ _ _ _ => eq_refl) w) as K3.
  assert (forall reply w1 w2,
            save_conversation user_message reply w1 = (Ok tt, w2) -> False)
    as Never.
  { intros reply w1 w2 S.
    destruct (save_conversation_appended _ _ _ _ S) as (ident & I & _).
    unfold conversation_id in I.
    rewrite (encode_surrogate user_message _ H) in I. discriminate I. }
  destruct (chat_with_may_cases user_message w)
    as [(e & w1 & G & T) |
        (reply & w1 & G &
         [(e & w2 & S & T) |
          (w2 & S & _)])];
    try (exfalso; apply (Never _ _ _ S));
    rewrite G in K1, K2, K3; simpl in K1, K2, K3;
    destruct (chat_with_may_final _ _ _ _ T) as (C & P & U & A & _).
  - rewrite C, P, U. auto.
  - destruct (save_conversation_raised _ _ _ _ _ S) as (C2 & _).
    pose proof (save_conversation_run user_message reply w1) as R.
    cbv zeta in R. rewrite S in R. destruct R as (P2 & U2 & _).
    simpl in P2, U2. rewrite C, P, U, C2, P2, U2. auto.
Qed.

(** ** The profile *)

Lemma chat_with_may_without_profile (user_message : str) (w : World) :
  user_profile w = None ->
  user_profile (snd (chat_with_may user_message w)) = None /\
  user_profile_table (snd (chat_with_may user_message w)) =
    user_profile_table w.
Proof.
  intros N.
  pose proof (generate_thoughtful_response_keeps user_profile_table
                user_message (fun _ _ _ _ _ _ _ _ _ _ _ _ => eq_refl) w) as K2.
  pose proof (generate_thoughtful_response_keeps user_profile user_message
                (fun _ _ _ _ _ _ _ _ _ _ _ _ => eq_refl) w) as K3.
  assert (forall reply w1 w2 r,
            save_conversation user_message reply w1 = (r, w2) ->
            user_profile w2 = user_profile w1 /\
            user_profile_table w2 = user_profile_table w1) as Save.
  { intros reply w1 w2 r S.
    pose proof (save_conversation_run user_message reply w1) as R.
    cbv zeta in R. rewrite S in R. destruct R as (P2 & U2 & _). auto. }
  destruct (chat_with_may_cases user_message w)
    as [(e & w1 & G & T) |
        (reply & w1 & G &
         [(e & w2 & S & T) |
          (w2 & S & [(e & w3 & U & T) | (w3 & U & T)])])];
    rewrite G in K2, K3; simpl in K2, K3;
    destruct (chat_with_may_final _ _ _ _ T) as (_ & P & Tb & _ & _);
    rewrite P, Tb.
  - split; congruence.
  - destruct (Save _ _ _ _ S). split; congruence.
  - destruct (Save _ _ _ _ S) as (P2 & T2).
    rewrite update_user_profile_not_loaded in U by congruence.
    discriminate U.
  - destruct (Save _ _ _ _ S) as (P2 & T2).
    rewrite update_user_profile_not_loaded in U by congruence.
    inversion U; subst. split; congruence.
Qed.

(** X7: no call creates a profile.  With no profile loaded, any sequence
    of calls of [chat_with_may] leaves the profile unloaded and the profile
    table untouched: the topics of the messages are recorded nowhere but
    in the stored turns. *)
Theorem no_profile_is_ever_created (messages : list str) (w : World) :
  user_profile w = None ->
  user_profile (chat_all messages w) = None /\
  user_profile_table (chat_all messages w) = user_profile_table w.
Proof.
  revert w. induction messages as [|message messages IH]; intros w N;
    cbn [chat_all]; [auto|].
  destruct (chat_with_may_without_profile message w N) as (P & T).
  destruct (IH _ P) as (P' & T'). split; congruence.
Qed.

Lemma add_interests_fields (labels : list str) (q : UserProfile) :
  name (add_interests labels q) = name q /\
  values (add_interests labels q) = values q /\
  conversation_patterns (add_interests labels q) = conversation_patterns q /\
  relationship_level (add_interests labels q) = relationship_level q /\
  last_interaction (add_interests labels q) = last_interaction q.
Proof.
  revert q; induction labels as [|label labels IH]; intros q; [auto 6|].
  change (add_interests (label :: labels) q)
    with (add_interests labels (add_interest label q)).
  destruct (IH (add_interest label q)) as (A & B & C & D & E).
  rewrite A, B, C, D, E. unfold add_interest.
  destruct (mem label (interests q)); auto 6.
Qed.

Lemma chat_with_may_profile_fields (user_message : str) (w : World)
    (p : UserProfile) :
  user_profile w = Some p ->
  exists p',
    user_profile (snd (chat_with_may user_message w)) = Some p' /\
    name p' = name p /\ values p' = values p /\
    conversation_patterns p' = conversation_patterns p /\
    relationship_level p' = relationship_level p.
Proof.
  intros P.
  pose proof (generate_thoughtful_response_keeps user_profile user_message
                (fun _ _ _ _ _ _ _ _ _ _ _ _ => eq_refl) w) as K.
  assert (forall reply w1 w2 r,
            save_conversation user_message reply w1 = (r, w2) ->
            user_profile w2 = user_profile w1) as Save.
  { intros reply w1 w2 r S.
    pose proof (save_conversation_run user_message reply w1) as R.
    cbv zeta in R. rewrite S in R. destruct R as (P2 & _). exact P2. }
  assert (forall w2 r w3,
            user_profile w2 = Some p ->
            update_user_profile user_message w2 = (r, w3) ->
            exists p',
              user_profile w3 = Some p' /\
              name p' = name p /\ values p' = values p /\
              conversation_patterns p' = conversation_patterns p /\
              relationship_level p' = relationship_level p) as Update.
  { intros w2 r w3 P2 U.
    pose proof (update_user_profile_loaded user_message w2 p P2) as L.
    cbv zeta in L. rewrite U in L. destruct L as (L & _). simpl in L.
    eexists. split; [exact L|].
    destruct (add_interests_fields (extract_topics user_message)
                (set_last_interaction (clock w2 0%nat) p))
      as (A & B & C & D & _).
    rewrite A, B, C, D. auto. }
  destruct (chat_with_may_cases user_message w)
    as [(e & w1 & G & T) |
        (reply & w1 & G &
         [(e & w2 & S & T) |
          (w2 & S & [(e & w3 & U & T) | (w3 & U & T)])])];
    rewrite G in K; simpl in K;
    destruct (chat_with_may_final _ _ _ _ T) as (_ & F & _);
    rewrite F.
  - exists p. rewrite K. auto.
  - exists p. rewrite (Save _ _ _ _ S), K. auto.
  - refine (Update w2 _ w3 _ U). rewrite (Save _ _ _ _ S), K. exact P.
  - refine (Update w2 _ w3 _ U). rewrite (Save _ _ _ _ S), K. exact P.
Qed.

(** X8: of the loaded profile, [chat_with_may] changes only the interests
    and the time of the last interaction: over any sequence of calls the
    name, the values, the conversation patterns and the relationship level
    are what they were. *)
Theorem profile_fields_never_change (messages : list str) (w : World)
    (p : UserProfile) :
  user_profile w = Some p ->
  exists p',
    user_profile (chat_all messages w) = Some p' /\
    name p' = name p /\ values p' = values p /\
    conversation_patterns p' = conversation_patterns p /\
    relationship_level p' = relationship_level p.
Proof.
  revert w p; induction messages as [|message messages IH]; intros w p P;
    cbn [chat_all].
  - exists p. auto.
  - destruct (chat_with_may_profile_fields message w p P)
      as (p1 & P1 & A & B & C & D).
    destruct (IH _ p1 P1) as (p2 & P2 & A2 & B2 & C2 & D2).
    exists p2. rewrite A2, B2, C2, D2. auto.
Qed.

Lemma sql_statement_runs (w : World) :
  healthy w ->
  exists w',
    sql_statement w = (Ok tt, w') /\ healthy w' /\
    conversations w' = conversations w /\
    user_profile_table w' = user_profile_table w /\
    user_profile w' = user_profile w /\ log w' = log w.
Proof.
  unfold healthy, sql_statement. intros H.
  destruct (faults w) as [|fault rest] eqn:E.
  - exists w. rewrite E. auto 6.
  - inversion H; subst. eexists. split; [reflexivity|]. simpl. auto 6.
Qed.



(** ** A call that completes *)

Lemma save_conversation_stores (message reply ident : str) (w w1 : World) :
  generate_thoughtful_response message w = (Ok reply, w1) ->
  healthy w1 ->
  conversation_id message reply (clock w1 0%nat) = Some ident ->
  ~ In ident (List.map id (conversations w)) ->
  exists w2,
    save_conversation message reply w1 = (Ok tt, w2) /\
    conversations w2 =
      conversations w ++ [saved_row message reply ident (clock w1 1%nat)] /\
    user_profile w2 = user_profile w /\
    user_profile_table w2 = user_profile_table w /\
    log w2 = log w ++ [saved_entry message] /\
    healthy w2 /\
    clock w2 0%nat = clock w1 2%nat.
Proof.
  intros G H I N.
  pose proof (generate_thoughtful_response_keeps conversations message
                (fun _ _ _ _ _ _ _ _ _ _ _ _ => eq_refl) w) as K1.
  pose proof (generate_thoughtful_response_keeps user_profile_table message
                (fun _ _ _ _ _ _ _ _ _ _ _ _ => eq_refl) w) as K2.
  pose proof (generate_thoughtful_response_keeps user_profile message
                (fun _ _ _ _ _ _ _ _ _ _ _ _ => eq_refl) w) as K3.
  pose proof (generate_thoughtful_response_keeps log message
                (fun _ _ _ _ _ _ _ _ _ _ _ _ => eq_refl) w) as K4.
  rewrite G in K1, K2, K3, K4. simpl in K1, K2, K3, K4.
  pose proof (save_conversation_run message reply w1) as R.
  cbv zeta in R. rewrite I in R. destruct R as (_ & _ & _ & R).
  assert (existsb (fun row => str_eqb (id row) ident) (conversations w1)
          = false) as X.
  { destruct (existsb _ (conversations w1)) eqn:X; [|reflexivity].
    apply existsb_id in X. rewrite K1 in X. contradiction. }
  rewrite X in R. unfold healthy in H.
  assert (fst (save_conversation message reply w1) = Ok tt /\
          conversations (snd (save_conversation message reply w1)) =
            conversations w1 ++
            [saved_row message reply ident (clock w1 1%nat)]) as (R1 & R2).
  { destruct (faults w1) as [|[e|] rest]; try exact R.
    inversion H; discriminate. }
  destruct (save_conversation message reply w1) as [[[]|e] w2] eqn:S;
    [|discriminate R1].
  simpl in R2.
  destruct (save_conversation_saved _ _ _ _ S) as (L2 & F2 & P2 & T2 & C2).
  exists w2. rewrite R2, P2, T2, L2, K1, K2, K3, K4, (C2 0%nat).
  refine (conj eq_refl (conj eq_refl (conj eq_refl (conj eq_refl
            (conj eq_refl (conj _ eq_refl)))))).
  unfold healthy. rewrite F2.
  destruct (faults w1) as [|f rest]; [constructor|].
  inversion H; assumption.
Qed.

(** X5: when the reply is composed, sqlite3 raises on none of the coming
    statements, the identifier of the turn is new and no profile is loaded,
    [chat_with_may] returns the composed reply, appends the turn with that
    reply (stamped with the next clock reading), logs the saved turn and
    nothing else, and leaves the profile unloaded and the profile table as
    it was. *)
Theorem chat_with_may_completes (message reply ident : str) (w w1 : World) :
  generate_thoughtful_response message w = (Ok reply, w1) ->
  healthy w1 ->
  conversation_id message reply (clock w1 0%nat) = Some ident ->
  ~ In ident (List.map id (conversations w)) ->
  user_profile w = None ->
  let after := chat_with_may message w in
  fst after = Ok reply /\
  conversations (snd after) =
    conversations w ++ [saved_row message reply ident (clock w1 1%nat)] /\
  user_profile (snd after) = None /\
  user_profile_table (snd after) = user_profile_table w /\
  log (snd after) = log w ++ [saved_entry message].
Proof.
  intros G H I N P. cbv zeta.
  destruct (save_conversation_stores _ _ _ _ _ G H I N)
    as (w2 & S & C2 & P2 & T2 & L2 & _ & _).
  assert (update_user_profile message w2 = (Ok tt, w2)) as Up
    by (apply update_user_profile_not_loaded; congruence).
  assert (chat_with_may_try message w = (Ok reply, w2)) as T.
  { unfold chat_with_may_try. rewrite (bind_ok _ _ _ _ _ G).
    rewrite (bind_ok _ _ _ _ _ S). rewrite (bind_ok _ _ _ _ _ Up).
    reflexivity. }
  destruct (chat_with_may_final _ _ _ _ T) as (C & Pf & Tf & A & L).
  rewrite C, Pf, Tf, L, C2, P2, T2, L2, P. auto.
Qed.

(** ** A call with a loaded profile *)

(** X20: with a loaded profile [chat_with_may] never returns a reply.  The
    profile block ends in [save_user_profile], which raises, so whatever
    the message and the state the caller gets the apology and the log ends
    with an error entry.  When the reply was composed, sqlite3 raises on
    none of the coming statements and the identifier of the turn is new,
    the turn is stored all the same with the composed reply, the profile
    in memory has the new time of last interaction and the topics of the
    message among its interests, and the log gains the entry of the saved
    turn followed by the error entry of the syntax error near [values]. *)
Theorem loaded_profile_always_gets_the_apology (message : str) (w : World)
    (p : UserProfile) :
  user_profile w = Some p ->
  let after := chat_with_may message w in
  fst after = Ok apology /\
  (exists e entries,
     log (snd after) =
       entries ++ [(ERROR, lit "Error in chat: " ++ exn_str e)]) /\
  (forall (reply ident : str) (w1 : World),
     generate_thoughtful_response message w = (Ok reply, w1) ->
     healthy w1 ->
     conversation_id message reply (clock w1 0%nat) = Some ident ->
     ~ In ident (List.map id (conversations w)) ->
     conversations (snd after) =
       conversations w ++ [saved_row message reply ident (clock w1 1%nat)] /\
     reply <> apology /\
     user_profile (snd after) =
       Some (add_interests (extract_topics message)
               (set_last_interaction (clock w1 2%nat) p)) /\
     log (snd after) =
       log w ++ [saved_entry message;
                 (ERROR, lit "Error in chat: " ++
                         exn_str syntax_error_near_values)]).
Proof.
  intros P. cbv zeta.
  pose proof (generate_thoughtful_response_keeps user_profile message
                (fun _ _ _ _ _ _ _ _ _ _ _ _ => eq_refl) w) as K3.
  assert (exists e w', chat_with_may_try message w = (Raise e, w'))
    as (e & w' & T).
  { destruct (chat_with_may_cases message w)
      as [(e & w1 & G & T) |
          (reply & w1 & G &
           [(e & w2 & S & T) |
            (w2 & S & [(e & w3 & U & T) | (w3 & U & T)])])]; eauto.
    exfalso. rewrite G in K3. simpl in K3.
    destruct (save_conversation_saved _ _ _ _ S) as (_ & _ & P2 & _ & _).
    assert (user_profile w2 = Some p) as P2' by congruence.
    pose proof (update_user_profile_loaded message w2 p P2') as L.
    cbv zeta in L. rewrite U in L. simpl in L. destruct L as (_ & _ & L).
    destruct (faults w2) as [|[x|] rest]; destruct L as (L & _);
      discriminate L. }
  destruct (chat_with_may_final _ _ _ _ T) as (_ & _ & _ & A & L).
  refine (conj A (conj _ _)).
  - exists e, (log w'). exact L.
  - intros reply ident w1 G H I N.
    destruct (save_conversation_stores _ _ _ _ _ G H I N)
      as (w2 & S & C2 & P2 & T2 & L2 & H2 & K2).
    assert (user_profile w2 = Some p) as P2' by congruence.
    pose proof (update_user_profile_loaded message w2 p P2') as U.
    cbv zeta in U. destruct U as (U1 & U2 & U3).
    assert (fst (update_user_profile message w2) =
            Raise syntax_error_near_values) as U4.
    { unfold healthy in H2.
      destruct (faults w2) as [|[x|] rest]; try exact (proj1 U3).
      inversion H2; discriminate. }
    pose proof (update_user_profile_keeps_store_and_log message w2)
      as (_ & L3).
    destruct (update_user_profile message w2) as [[[]|e3] w3] eqn:Up;
      [discriminate U4|].
    simpl in U1, U2, U4, L3. injection U4 as ->.
    pose proof (chat_with_may_try_upsert_raises _ _ _ _ _ _ _ G S Up) as T3.
    destruct (chat_with_may_final _ _ _ _ T3) as (C & Pf & _ & _ & Lf).
    rewrite C, Pf, Lf, U1, U2, L3, C2, L2, K2.
    refine (conj eq_refl (conj _ (conj eq_refl _))).
    + apply (generate_thoughtful_response_not_apology _ _ _ _ G).
    + rewrite <- app_assoc. reflexivity.
Qed.

(** ** LIKE *)

Lemma like_percent_step (pattern text : str) :
  Like.like (37%N :: pattern) text =
  Like.like pattern text ||
  match text with
  | [] => false
  | _ :: text' => Like.like (37%N :: pattern) text'
  end.
Proof. destruct text; reflexivity. Qed.

Lemma like_percent (pattern text : str) :
  Like.like (37%N :: pattern) text = true <->
  exists skipped rest,
    text = skipped ++ rest /\ Like.like pattern rest = true.
Proof.
  induction text as [|c text IH]; rewrite like_percent_step.
  - rewrite orb_false_r. split.
    + intros H. exists [], []. auto.
    + intros (skipped & rest & E & H).
      destruct skipped; [|discriminate E]. simpl in E. subst rest. exact H.
  - rewrite orb_true_iff, IH. split.
    + intros [H | (skipped & rest & E & H)].
      * exists [], (c :: text). auto.
      * exists (c :: skipped), rest. rewrite E. auto.
    + intros ([|d skipped] & rest & E & H).
      * left. simpl in E. subst rest. exact H.
      * right. inversion E; subst. exists skipped, rest. auto.
Qed.

Lemma like_only_percent (text : str) : Like.like [37%N] text = true.
Proof.
  apply like_percent. exists text, []. rewrite app_nil_r. auto.
Qed.

Lemma like_literal (needle rest text : str) :
  forallb (fun c => negb (Like.wildcard c)) needle = true ->
  Like.like (needle ++ rest) text = true <->
  exists found after,
    text = found ++ after /\
    ascii_lower found = ascii_lower needle /\
    Like.like rest after = true.
Proof.
  revert text; induction needle as [|c needle IH]; intros text W.
  - simpl. split.
    + intros H. exists [], text. auto.
    + intros ([|d found] & after & E & L & H); [|discriminate L].
      simpl in E. subst. exact H.
  - simpl in W. apply andb_true_iff in W. destruct W as (Wc & W).
    unfold Like.wildcard in Wc. apply negb_true_iff, orb_false_iff in Wc.
    destruct Wc as (W1 & W2).
    change ((c :: needle) ++ rest) with (c :: (needle ++ rest)).
    cbn [Like.like]. rewrite W1, W2. cbn [orb].
    destruct text as [|d text].
    + split; [discriminate|].
      intros ([|x found] & after & E & L & _); discriminate.
    + rewrite andb_true_iff, N.eqb_eq, (IH text W). split.
      * intros (C & found & after & E & L & H).
        exists (d :: found), after. subst text. simpl.
        rewrite L, C. auto.
      * intros ([|x found] & after & E & L & H); [discriminate L|].
        inversion E; subst. simpl in L. inversion L.
        split; [congruence|]. exists found, after. auto.
Qed.

(** For a needle without wildcards, [text LIKE '%needle%'] is the
    containment of the needle in the text up to the case of ASCII
    letters. *)
Lemma like_around_contains (needle text : str) :
  forallb (fun c => negb (Like.wildcard c)) needle = true ->
  Like.like (Like.around needle) text = Sql.like_contains needle text.
Proof.
  intros W. apply eq_true_iff_eq. unfold Like.around, Sql.like_contains.
  change ([37%N] ++ needle ++ [37%N]) with (37%N :: (needle ++ [37%N])).
  rewrite like_percent, contains_substring. split.
  - intros (skipped & rest & -> & H).
    apply (like_literal needle [37%N] rest W) in H.
    destruct H as (found & after & -> & L & _).
    exists (ascii_lower skipped), (ascii_lower after).
    unfold ascii_lower in *. rewrite !map_app, L. reflexivity.
  - intros (pre & post & E). unfold ascii_lower in E.
    apply map_eq_app in E. destruct E as (skipped & rest & -> & _ & E).
    apply map_eq_app in E. destruct E as (found & after & -> & L & _).
    exists skipped, (found ++ after). split; [reflexivity|].
    apply (like_literal needle [37%N] _ W).
    exists found, after. refine (conj eq_refl (conj L _)).
    apply like_only_percent.
Qed.




(** ** The [/memories] endpoint *)

Lemma fold_append_map {A B} (f : A -> B) (l : list A) (acc : list B) :
  fold_left (fun items x => items ++ [f x]) l acc = acc ++ List.map f l.
Proof.
  revert acc; induction l as [|x l IH]; intros acc; simpl.
  - rewrite app_nil_r. reflexivity.
  - rewrite IH, <- app_assoc. reflexivity.
Qed.

Lemma filter_all {A} (f : A -> bool) (l : list A) :
  (forall x, In x l -> f x = true) -> filter f l = l.
Proof.
  induction l as [|x l IH]; intros H; [reflexivity|]. simpl.
  rewrite (H x (or_introl eq_refl)). f_equal. apply IH.
  intros y I. apply H. right. exact I.
Qed.


Lemma newer_first_total (a b : ConversationMemory) :
  newer_first a b = false -> newer_first b a = true.
Proof.
  unfold newer_first. intros H. apply Z.leb_gt in H. apply Z.leb_le. lia.
Qed.

Lemma newer_first_transitive (a b c : ConversationMemory) :
  newer_first a b = true -> newer_first b c = true -> newer_first a c = true.
Proof. unfold newer_first. rewrite !Z.leb_le. lia. Qed.

Lemma encode_without_surrogate (s : str) :
  existsb is_surrogate s = false -> exists bytes, encode s = Some bytes.
Proof.
  induction s as [|c s IH]; simpl; [eauto|].
  intros H. apply orb_false_iff in H. destruct H as (C & H).
  destruct (IH H) as (rest & ->).
  unfold utf8_char. unfold is_surrogate in C. rewrite C.
  destruct (c <? 128)%N; [eauto|].
  destruct (c <? 2048)%N; [eauto|].
  destruct (c <? 65536)%N; eauto.
Qed.

Lemma pattern_encodes (label : str) :
  existsb is_surrogate label = false ->
  bind_str (Like.around label) = ret tt.
Proof.
  intros H. unfold bind_str.
  destruct (encode_without_surrogate (Like.around label)) as (bytes & ->);
    [|reflexivity].
  unfold Like.around. rewrite !existsb_app, H. reflexivity.
Qed.


(** The rows [get_memories] fetches. *)
Lemma get_memories_healthy (topic : option str) (limit : Z) (w : World) :
  healthy w ->
  Sql.integer limit = true ->
  (forall label, topic = Some label -> existsb is_surrogate label = false) ->
  fst (get_memories topic limit w) =
  Ok (List.map memory_dict
        (Sql.limit limit
           (Sql.order_by newer_first
              (filter (fun row =>
                         match topic with
                         | Some (c :: label) => topic_filter (c :: label) row
                         | _ => true
                         end)
                      (conversations w))))).
Proof.
  intros H I E. destruct (sql_statement_runs w H) as (v & S & _ & C & _).
  unfold get_memories. rewrite (bind_ok _ _ _ _ _ S).
  assert (match topic with
          | Some (c :: label) => bind_str (Like.around (c :: label))
          | _ => ret tt
          end = ret tt) as ->.
  { destruct topic as [[|c label]|]; try reflexivity.
    apply pattern_encodes. apply E. reflexivity. }
  unfold bind_int. rewrite I.
  unfold bind, get_conversations, ret. simpl. rewrite fold_append_map, C.
  simpl. destruct topic as [[|c label]|];
    rewrite ?(filter_all (fun _ => true)) by reflexivity; reflexivity.
Qed.



(** X15: a saved turn is read back.  After [save_conversation] has stored
    a turn stamped later than every stored turn, [get_memories] with limit
    1 and no topic returns that turn: its identifier, the two texts, the
    topic, the sentiment, the importance and the timestamp. *)
Theorem saved_turn_is_listed_first (message reply : str) (w w' : World) :
  save_conversation message reply w = (Ok tt, w') ->
  healthy w' ->
  (forall row, In row (conversations w) -> timestamp row < clock w 1%nat) ->
  exists ident,
    conversation_id message reply (clock w 0%nat) = Some ident /\
    fst (get_memories None 1 w') =
    Ok [[(lit "id", VStr ident);
         (lit "user_message", VStr message);
         (lit "may_response", VStr reply);
         (lit "topic",
          VStr (match extract_topics message with
                | t :: _ => t
                | [] => lit "general"
                end));
         (lit "sentiment", VStr (analyze_message_sentiment message));
         (lit "importance",
          VInt (calculate_importance message (extract_topics message)
                  (analyze_message_sentiment message)));
         (lit "timestamp", VTime (clock w 1%nat))]].
Proof.
  intros S H Old.
  destruct (save_conversation_appended _ _ _ _ S) as (ident & I & _ & C).
  exists ident. split; [exact I|].
  rewrite (get_memories_healthy None 1 w' H eq_refl)
    by (intros label E; discriminate E).
  rewrite (filter_all (fun _ => true)) by reflexivity.
  set (new := saved_row message reply ident (clock w 1%nat)) in *.
  destruct (Sql.order_by newer_first (conversations w')) as [|x rest] eqn:O.
  { pose proof (order_by_permutation newer_first (conversations w')) as P.
    rewrite O, C in P. apply Permutation_nil in P.
    destruct (conversations w); discriminate P. }
  destruct (order_by_first newer_first _ _ _ newer_first_total
              newer_first_transitive O) as (Ix & Top).
  assert (x = new) as ->.
  { rewrite C in Ix. apply in_app_or in Ix.
    destruct Ix as [Ix | [<- | []]]; [|reflexivity].
    assert (newer_first x new = true) as T
      by (apply Top; rewrite C; apply in_or_app; right; left; reflexivity).
    unfold newer_first in T. apply Z.leb_le in T.
    specialize (Old x Ix). subst new. simpl in T. lia. }
  reflexivity.
Qed.

(** X18: the pattern [find_relevant_memories] builds from an extracted
    topic holds no wildcard, so its LIKE is plain containment: a turn
    matches a topic exactly when its primary topic is that topic or its
    serialized tag list contains it, the case of ASCII letters ignored. *)
Theorem find_relevant_memories_pattern (message label : str)
    (row : ConversationMemory) :
  In label (extract_topics message) ->
  forallb (fun c => negb (Like.wildcard c)) label = true /\
  row_matches label row =
    (str_eqb (topic row) label ||
     Like.like (Like.around label) (Sql.json_dumps (context_tags row))).
Proof.
  intros I.
  assert (forallb (fun c => negb (Like.wildcard c)) label = true) as W.
  { apply extract_topics_labels in I. simpl in I.
    repeat (destruct I as [<- | I]; [reflexivity|]). destruct I. }
  split; [exact W|]. unfold row_matches.
  rewrite like_around_contains by exact W. reflexivity.
Qed.

(** ** The callback clause *)

Lemma lstrip_fixed (c : char) (s : str) :
  isspace c = false -> lstrip (c :: s) = c :: s.
Proof. intros C. simpl. rewrite C. reflexivity. Qed.

Lemma strip_fixed (c d : char) (middle : str) :
  isspace c = false -> isspace d = false ->
  strip (c :: middle ++ [d]) = c :: middle ++ [d].
Proof.
  intros C D. unfold strip. rewrite (lstrip_fixed c _ C).
  assert (rev (c :: middle ++ [d]) = d :: rev (c :: middle)) as R.
  { change (c :: middle ++ [d]) with ((c :: middle) ++ [d]).
    rewrite rev_app_distr. reflexivity. }
  rewrite R, (lstrip_fixed d _ D), <- R, rev_involutive. reflexivity.
Qed.

Lemma trimmed_ends (s : str) :
  trimmed s = true ->
  exists c front d back,
    s = c :: front /\ s = back ++ [d] /\
    isspace c = false /\ isspace d = false.
Proof.
  unfold trimmed. destruct s as [|c front]; [discriminate|].
  destruct (rev (c :: front)) as [|d back] eqn:R; [discriminate|].
  intros H. apply andb_prop in H. destruct H as [C D].
  apply negb_true_iff in C. apply negb_true_iff in D.
  exists c, front, d, (rev back). repeat split; try assumption.
  apply (f_equal (@rev char)) in R. rewrite rev_involutive in R.
  exact R.
Qed.

Lemma strip_trimmed (s : str) : trimmed s = true -> strip s = s.
Proof.
  intros T.
  destruct (trimmed_ends s T) as (c & front & d & back & E1 & E2 & C & D).
  destruct back as [|b back].
  - rewrite E2. unfold strip.
    change ([] ++ [d]) with [d].
    rewrite (lstrip_fixed d [] D).
    change (rev [d]) with [d].
    rewrite (lstrip_fixed d [] D). reflexivity.
  - rewrite E1 in E2. injection E2 as E2 E3.
    rewrite E1, E3. apply strip_fixed; assumption.
Qed.

Lemma core_candidates_trimmed :
  forallb trimmed core_candidates = true.
Proof. vm_compute. reflexivity. Qed.

Lemma sparks_trimmed : forallb trimmed sparks = true.
Proof. vm_compute. reflexivity. Qed.

Lemma trimmed_app (a middle b : str) :
  trimmed a = true -> trimmed b = true -> trimmed (a ++ middle ++ b) = true.
Proof.
  intros A B.
  destruct (trimmed_ends a A) as (c & front & _ & _ & -> & _ & C & _).
  destruct (trimmed_ends b B) as (_ & _ & d & back & _ & -> & _ & D).
  unfold trimmed. cbn [app].
  replace (rev (c :: front ++ middle ++ back ++ [d]))
    with (d :: rev (c :: front ++ middle ++ back))
    by (rewrite <- rev_unit; cbn [app]; rewrite <- !app_assoc; reflexivity).
  rewrite C, D. reflexivity.
Qed.

Lemma plain_reply (core : str) (tail : list str) (r : str) :
  In core core_candidates ->
  tail = [] \/ (exists spark, In spark sparks /\ tail = [spark]) ->
  r = join (lit " ") (core :: tail) ->
  In r replies_without_callback /\ trimmed r = true.
Proof.
  intros C T ->.
  pose proof (proj1 (forallb_forall _ _) core_candidates_trimmed core C) as Tc.
  assert (trimmed (join (lit " ") (core :: tail)) = true) as Tr.
  { destruct T as [-> | (spark & S & ->)]; [exact Tc|].
    apply trimmed_app; [exact Tc|].
    exact (proj1 (forallb_forall _ _) sparks_trimmed spark S). }
  split; [|exact Tr].
  pose proof (strip_trimmed _ Tr) as St.
  unfold replies_without_callback. apply in_flat_map. exists core.
  split; [exact C|].
  destruct T as [-> | (spark & S & ->)].
  - left. exact St.
  - right. rewrite <- St.
    apply in_map with (f := fun spark => strip (join (lit " ") [core; spark])).
    exact S.
Qed.

Lemma replies_without_callback_opening :
  forallb (fun plain => negb (str_eqb (firstn 4 plain) (lit "This")))
          replies_without_callback = true.
Proof. vm_compute. reflexivity. Qed.

(** X19: the reply opens with the callback clause exactly when a memory was
    retrieved and the first draw of [random.random()] is below 0.4.  Then
    the reply is the clause for the first retrieved memory at the next
    clock reading, two spaces (the clause ends with one and [join] adds
    one), and a reply as it is composed without a callback; otherwise it is
    such a reply, and none of those begins with "This". *)
Theorem callback_clause_opens_the_reply (user_message : str)
    (w w' : World) (reply : str) (history : list ConversationMemory) :
  fst (find_relevant_memories user_message 3 w) = Ok history ->
  generate_thoughtful_response user_message w = (Ok reply, w') ->
  (history = [] \/ float_lt (random_floats w 0%nat) float_0_4 = false ->
   In reply replies_without_callback) /\
  (forall memory others,
     history = memory :: others ->
     float_lt (random_floats w 0%nat) float_0_4 = true ->
     exists rest,
       In rest replies_without_callback /\
       reply = lit "This reminds me of when you mentioned " ++
               topic memory ++ lit " " ++
               time_reference (days_between (clock w 0%nat)
                                            (timestamp memory)) ++
               lit ".  " ++ rest) /\
  (forall plain,
     In plain replies_without_callback -> firstn 4 plain <> lit "This").
Proof.
  intros F G.
  pose proof (find_relevant_memories_keeps clock user_message 3
                (fun _ _ _ _ _ _ _ _ _ => eq_refl) w) as Kc.
  pose proof (find_relevant_memories_keeps random_floats user_message 3
                (fun _ _ _ _ _ _ _ _ _ => eq_refl) w) as Kf.
  assert (forall parts v v' r,
            (core <- generate_core_response user_message
                       (analyze_message_sentiment user_message)
                       (extract_topics user_message) ;;
             let response_parts := parts ++ [core] in
             draw <- random_random ;;
             response_parts <-
               (if float_lt draw float_0_3 then
                  spark <- generate_conversation_spark
                             (extract_topics user_message) ;;
                  ret (response_parts ++ [spark])
                else ret response_parts) ;;
             ret (strip (join (lit " ") response_parts))) v = (Ok r, v') ->
            exists core tail,
              In core core_candidates /\
              (tail = [] \/ exists spark, In spark sparks /\ tail = [spark]) /\
              r = strip (join (lit " ") (parts ++ core :: tail))) as Parts.
  { intros parts v v' r E. apply reply_after_parts in E.
    destruct E as (core & C & [-> | (spark & S & ->)]).
    - exists core, []. split; [exact C|]. split; [left; reflexivity|].
      reflexivity.
    - exists core, [spark]. split; [exact C|].
      split; [right; exists spark; split; [exact S|reflexivity]|].
      rewrite <- app_assoc. reflexivity. }
  revert G. unfold generate_thoughtful_response. unfold bind at 1.
  destruct (find_relevant_memories user_message 3 w)
    as [[found|e] w1]; [|discriminate].
  simpl in F, Kf, Kc. injection F as ->.
  assert (forall r v v',
            (core <- generate_core_response user_message
                       (analyze_message_sentiment user_message)
                       (extract_topics user_message) ;;
             let response_parts := [] ++ [core] in
             draw <- random_random ;;
             response_parts <-
               (if float_lt draw float_0_3 then
                  spark <- generate_conversation_spark
                             (extract_topics user_message) ;;
                  ret (response_parts ++ [spark])
                else ret response_parts) ;;
             ret (strip (join (lit " ") response_parts))) v = (Ok r, v') ->
            In r replies_without_callback) as Plain.
  { intros r v v' E. apply Parts in E.
    destruct E as (core & tail & C & T & ->). simpl app.
    destruct (plain_reply core tail _ C T eq_refl) as [I Tr].
    rewrite (strip_trimmed _ Tr). exact I. }
  intros G. refine (conj _ (conj _ _)).
  - intros H. revert G. destruct history as [|memory others].
    + unfold bind at 1. unfold ret at 1. apply Plain.
    + destruct H as [H|H]; [discriminate H|].
      unfold bind at 1. unfold bind at 1. unfold random_random at 1.
      rewrite Kf, H. unfold ret at 1. apply Plain.
  - intros memory others -> H. revert G.
    unfold bind at 1. unfold bind at 1. unfold random_random at 1.
    rewrite Kf, H. unfold bind at 1. unfold datetime_now at 1.
    unfold ret at 1. cbn [clock]. rewrite Kc. intros E.
    apply Parts in E. destruct E as (core & tail & C & T & ->).
    destruct (plain_reply core tail _ C T eq_refl) as [I Tr].
    exists (join (lit " ") (core :: tail)). split; [exact I|].
    set (rest := join (lit " ") (core :: tail)) in *.
    set (time_ref := time_reference
                       (days_between (clock w 0%nat) (timestamp memory))).
    transitivity ((lit "This reminds me of when you mentioned " ++
                   topic memory ++ lit " " ++ time_ref ++ lit ". ") ++
                  lit " " ++ rest).
    + change (join (lit " ") (([] ++ _) ++ core :: tail))
        with ((lit "This reminds me of when you mentioned " ++
               topic memory ++ lit " " ++ time_ref ++ lit ". ") ++
              lit " " ++ rest).
      destruct (trimmed_ends rest Tr) as (_ & _ & d & back & _ & -> & _ & D).
      set (a := lit "his reminds me of when you mentioned " ++
                topic memory ++ lit " " ++ time_ref ++ lit ". ").
      change (strip ((84%N :: a) ++ (32%N :: back) ++ [d]) =
              (84%N :: a) ++ (32%N :: back) ++ [d]).
      rewrite (app_assoc (84%N :: a) (32%N :: back) [d]).
      rewrite <- app_comm_cons. apply strip_fixed; [reflexivity|exact D].
    + rewrite <- !app_assoc. reflexivity.
  - intros plain I E.
    pose proof (proj1 (forallb_forall _ _) replies_without_callback_opening
                  plain I) as H.
    cbv beta in H. rewrite E in H. vm_compute in H. discriminate H.
Qed.

End May.

(** ** The program on sample inputs *)

Lemma run_from_result {A} (m : M A) (w : World) (r : result A) :
  fst (m w) = r -> m w = (r, snd (m w)).
Proof. intros <-. destruct (m w). reflexivity. Qed.

Lemma sample_world_healthy rows draws indices :
  healthy (Sample.world rows draws indices []).
Proof. constructor. Defined.

Lemma find_relevant_memories_ranked_witness :
  let w := Sample.world
             [Sample.turn "a1" "work" 5 (Sample.day 1);
              Sample.turn "a2" "family" 7 (Sample.day 2);
              Sample.turn "a3" "work" 9 (Sample.day 3);
              Sample.turn "a4" "work" 9 (Sample.day 4)] [] [] [] in
  fst (find_relevant_memories Sample.unicode_lower
         (lit "My boss gave me a new project") 2 w)
  = Ok [memory_of_row (Sample.turn "a4" "work" 9 (Sample.day 4));
        memory_of_row (Sample.turn "a3" "work" 9 (Sample.day 3))].
Proof.
  intros w.
  pose proof (proj1 (proj2 (find_relevant_memories_ranked
                              Sample.unicode_lower))
                (lit "My boss gave me a new project") 2 w
                (sample_world_healthy _ _ _) (conj Z.le_0_2 eq_refl)) as H.
  exact (proj1 H).
Defined.

(** A negative limit is no cap: SQLite returns every matching row, and the
    slice drops the last one. *)
Lemma find_relevant_memories_negative_limit :
  let w := Sample.world
             [Sample.turn "a1" "general" 5 (Sample.day 1);
              Sample.turn "a2" "general" 5 (Sample.day 2)] [] [] [] in
  let found := [memory_of_row (Sample.turn "a2" "general" 5 (Sample.day 2))] in
  extract_topics Sample.unicode_lower (lit "hello") = [lit "general"] /\
  length (select_rows (lit "general") (-1) (conversations w)) = 2%nat /\
  fst (find_relevant_memories Sample.unicode_lower (lit "hello") (-1) w)
  = Ok found /\
  ~ (Z.of_nat (length found) <= -1).
Proof.
  cbv zeta. refine (conj _ (conj _ (conj _ _))).
  - vm_compute. reflexivity.
  - vm_compute. reflexivity.
  - vm_compute. reflexivity.
  - simpl. lia.
Qed.

Lemma sentiment_counts_each_listed_word_once :
  let message := lit "good good bad sad" in
  lower Sample.unicode_lower message = message /\
  Spec.total_occurrences positive_words message = 2 /\
  Spec.total_occurrences negative_words message = 2 /\
  sentiment_by_occurrences Sample.unicode_lower message = lit "neutral" /\
  Spec.present positive_words message = 1 /\
  Spec.present negative_words message = 2 /\
  analyze_message_sentiment Sample.unicode_lower message = lit "negative".
Proof. vm_compute. repeat split. Qed.

Lemma analyze_message_sentiment_by_presence_witness :
  analyze_message_sentiment Sample.unicode_lower (lit "So HAPPY, not sad!")
  = lit "neutral".
Proof.
  apply (proj2 (proj2 (proj2 (analyze_message_sentiment_by_presence
                                Sample.unicode_lower
                                (lit "So HAPPY, not sad!"))))).
  vm_compute. reflexivity.
Defined.

Lemma extract_topics_matching_witness :
  extract_topics Sample.unicode_lower (lit "My BOSS is also my friend")
  = [lit "work"; lit "relationships"].
Proof.
  apply (proj1 (proj2 (proj2 (proj2 (extract_topics_matching
                                       Sample.unicode_lower
                                       (lit "My BOSS is also my friend")))))).
  vm_compute. discriminate.
Defined.

Lemma calculate_importance_at_least_base_witness :
  exists message topics sentiment,
    calculate_importance message topics sentiment = 8.
Proof.
  apply (proj2 calculate_importance_at_least_base 8).
  split; discriminate.
Defined.

(** The same message, history and draws at two different times. *)
Lemma generate_thoughtful_response_reads_the_clock :
  let rows := [Sample.turn "a1" "family" 5 (Sample.day 10)] in
  let today := Sample.world_at (Sample.day 10) rows [1 # 10; 9 # 10]
                               [0; 0]%nat [] in
  let tomorrow := Sample.world_at (Sample.day 11) rows [1 # 10; 9 # 10]
                                  [0; 0]%nat [] in
  let message := lit "I love my family" in
  fst (find_relevant_memories Sample.unicode_lower message 3 today) =
  fst (find_relevant_memories Sample.unicode_lower message 3 tomorrow) /\
  fst (generate_thoughtful_response Sample.unicode_lower message today) =
  Ok (lit "This reminds me of when you mentioned family earlier today.  It's wonderful to hear the joy in your words! Family is such a blessing. How has your family been doing?") /\
  fst (generate_thoughtful_response Sample.unicode_lower message tomorrow) =
  Ok (lit "This reminds me of when you mentioned family yesterday.  It's wonderful to hear the joy in your words! Family is such a blessing. How has your family been doing?") /\
  fst (generate_thoughtful_response Sample.unicode_lower message today) <>
  fst (generate_thoughtful_response Sample.unicode_lower message tomorrow).
Proof.
  cbv zeta. refine (conj _ (conj _ (conj _ _))).
  - vm_compute. reflexivity.
  - vm_compute. reflexivity.
  - vm_compute. reflexivity.
  - vm_compute. discriminate.
Qed.

Lemma generate_thoughtful_response_two_runs_witness :
  let rows := [Sample.turn "a1" "family" 5 (Sample.day 10)] in
  let w1 := Sample.world rows [1 # 10; 1 # 5] [2; 1; 4]%nat [] in
  let w2 := mkWorld rows [Sample.profile] None [(INFO, lit "started")]
                    (clock w1) (random_floats w1) (random_indices w1) [] in
  fst (generate_thoughtful_response Sample.unicode_lower
         (lit "I love my family") w1) =
  fst (generate_thoughtful_response Sample.unicode_lower
         (lit "I love my family") w2).
Proof.
  intros rows w1 w2.
  apply (proj1 (generate_thoughtful_response_two_runs Sample.unicode_lower)).
  repeat split.
Defined.

(** A sqlite3 error on the second statement: the insert of the turn. *)
Lemma chat_with_may_catches_storage_errors_witness :
  let locked := SqliteError (lit "database is locked") in
  let w := Sample.world [] [] [] [None; Some locked] in
  let after := chat_with_may Sample.unicode_lower Sample.hexdigest
                             Sample.datetime_str (lit "hello") w in
  fst after = Ok apology /\
  log (snd after) = [(ERROR, lit "Error in chat: database is locked")] /\
  conversations (snd after) = [].
Proof.
  intros locked w after.
  pose (g := generate_thoughtful_response Sample.unicode_lower (lit "hello") w).
  pose (reply := nth 0 general_responses []).
  pose (s1 := save_conversation Sample.unicode_lower Sample.hexdigest
                Sample.datetime_str (lit "hello") reply (snd g)).
  pose proof (proj1 (proj2 (chat_with_may_catches_storage_errors
                              Sample.unicode_lower Sample.hexdigest
                              Sample.datetime_str))
                (lit "hello") reply w (snd g) (snd s1) locked) as H.
  assert (g = (Ok reply, snd g)) as G
    by (apply run_from_result; vm_compute; reflexivity).
  assert (s1 = (Raise locked, snd s1)) as S
    by (apply run_from_result; vm_compute; reflexivity).
  destruct (H G S) as (A & L).
  split; [exact A|]. split; [exact L | vm_compute; reflexivity].
Defined.

(** A turn is stored once; the same texts at the same instant a second
    time get the same identifier, and the insert is refused. *)
Lemma save_conversation_collision_refused :
  let message := lit "hello" in
  let reply := lit "That sounds meaningful to you. Could you tell me more?" in
  let first := save_conversation Sample.unicode_lower Sample.hexdigest
                 Sample.datetime_str message reply
                 (Sample.world [] [] [] []) in
  let again := save_conversation Sample.unicode_lower Sample.hexdigest
                 Sample.datetime_str message reply
                 (Sample.world (conversations (snd first)) [] [] []) in
  fst first = Ok tt /\
  length (conversations (snd first)) = 1%nat /\
  fst again = Raise (IntegrityError
                       (lit "UNIQUE constraint failed: conversations.id")) /\
  conversations (snd again) = conversations (snd first) /\
  length (conversations (snd again)) = 1%nat.
Proof. vm_compute. repeat split. Qed.

Lemma save_conversation_identifier_witness :
  let message := lit "hello" in
  let reply := lit "That sounds meaningful to you. Could you tell me more?" in
  let w := Sample.world [Sample.turn "a1" "work" 5 (Sample.day 1)] [] [] [] in
  let after := save_conversation Sample.unicode_lower Sample.hexdigest
                 Sample.datetime_str message reply w in
  fst after = Ok tt /\
  exists ident,
    conversation_id Sample.hexdigest Sample.datetime_str message reply
                    (clock w 0%nat) = Some ident /\
    conversations (snd after) =
      conversations w ++
      [saved_row Sample.unicode_lower message reply ident (clock w 1%nat)].
Proof.
  intros message reply w after.
  pose (ident := firstn 16 (Sample.hexdigest
                   (match encode (message ++ reply ++
                                  lit (Sample.datetime_str (clock w 0%nat)))
                    with Some bytes => bytes | None => [] end))).
  assert (hd None (faults w) = None) as F by reflexivity.
  assert (conversation_id Sample.hexdigest Sample.datetime_str message reply
            (clock w 0%nat) = Some ident) as E by (vm_compute; reflexivity).
  assert (~ In ident (List.map id (conversations w))) as N.
  { vm_compute. intros [H | []]. discriminate H. }
  destruct (proj1 (proj2 (save_conversation_identifier
                            Sample.unicode_lower Sample.hexdigest
                            Sample.datetime_str))
              message reply ident w F E N) as (A & C).
  split; [exact A|]. exists ident. split; [exact E | exact C].
Defined.


(** The insert succeeds, then sqlite3 raises on the upsert of the profile. *)
Lemma chat_with_may_not_atomic_witness :
  let locked := SqliteError (lit "database is locked") in
  let w := Sample.world [] [] [] [None; None; Some locked] in
  let after := chat_with_may Sample.unicode_lower Sample.hexdigest
                             Sample.datetime_str (lit "hello") w in
  let reply := lit "I'm really interested to hear more about this. What's been on your mind?" in
  fst after = Ok apology /\
  reply <> apology /\
  (exists row,
     conversations (snd after) = conversations w ++ [row] /\
     may_response row = reply /\
     user_message row = lit "hello") /\
  user_profile_table (snd after) = user_profile_table w /\
  In (ERROR, lit "Error in chat: " ++ exn_str locked) (log (snd after)).
Proof.
  intros locked w after reply.
  pose (g := generate_thoughtful_response Sample.unicode_lower (lit "hello") w).
  pose (s1 := save_conversation Sample.unicode_lower Sample.hexdigest
                Sample.datetime_str (lit "hello") reply (snd g)).
  assert (g = (Ok reply, snd g)) as G
    by (apply run_from_result; vm_compute; reflexivity).
  assert (s1 = (Ok tt, snd s1)) as S
    by (apply run_from_result; vm_compute; reflexivity).
  assert (faults (snd s1) = [Some locked]) as F by (vm_compute; reflexivity).
  exact (chat_with_may_not_atomic Sample.unicode_lower Sample.hexdigest
           Sample.datetime_str (lit "hello") reply w (snd g) (snd s1)
           Sample.profile locked [] G S eq_refl F).
Defined.

(** ** Further sample runs *)

Lemma generate_thoughtful_response_reply_shape_witness :
  let reply := lit "I'm really interested to hear more about this. What's been on your mind?" in
  reply <> [] /\
  (forall c rest, reply = c :: rest -> isspace c = false) /\
  (forall front c, reply = front ++ [c] -> isspace c = false).
Proof.
  intros reply.
  pose (w := Sample.world [] [] [] []).
  assert (generate_thoughtful_response Sample.unicode_lower (lit "hello") w =
          (Ok reply,
           snd (generate_thoughtful_response Sample.unicode_lower
                  (lit "hello") w))) as G
    by (apply run_from_result; vm_compute; reflexivity).
  exact (generate_thoughtful_response_reply_shape Sample.unicode_lower
           (lit "hello") w _ reply G).
Defined.

Lemma callback_memory_is_top_ranked_witness :
  let store := [Sample.turn "a1" "work" 5 (Sample.day 1);
                Sample.turn "a2" "family" 7 (Sample.day 2);
                Sample.turn "a3" "work" 9 (Sample.day 3);
                Sample.turn "a4" "work" 9 (Sample.day 4)] in
  let message := lit "My boss gave me a new project" in
  let memory := memory_of_row (Sample.turn "a4" "work" 9 (Sample.day 4)) in
  exists earlier label later row,
    extract_topics Sample.unicode_lower message = earlier ++ label :: later /\
    (forall l r, In l earlier -> In r store -> row_matches l r = false) /\
    In row store /\
    row_matches label row = true /\
    memory = memory_of_row row /\
    forall other,
      In other store -> row_matches label other = true ->
      importance other < importance row \/
      importance other = importance row /\ timestamp other <= timestamp row.
Proof.
  intros store message memory.
  pose (w := Sample.world store [] [] []).
  assert (fst (find_relevant_memories Sample.unicode_lower message 3 w) =
          Ok (memory ::
              [memory_of_row (Sample.turn "a3" "work" 9 (Sample.day 3));
               memory_of_row (Sample.turn "a1" "work" 5 (Sample.day 1))]))
    as F by (vm_compute; reflexivity).
  exact (callback_memory_is_top_ranked Sample.unicode_lower message w memory _
           (sample_world_healthy _ _ _) F).
Defined.

Lemma stored_turns_keep_the_invariant_witness :
  Forall turn_invariant
    (conversations
       (chat_all Sample.unicode_lower Sample.hexdigest Sample.datetime_str
                 [lit "My boss is my friend"; lit "I love my job"]
                 (Sample.world [] [] [] []))).
Proof.
  exact (stored_turns_keep_the_invariant Sample.unicode_lower Sample.hexdigest
           Sample.datetime_str
           [lit "My boss is my friend"; lit "I love my job"]
           (Sample.world [] [] [] []) (Forall_nil _)).
Defined.

Lemma surrogate_message_is_never_stored_witness :
  let message := lit "broken " ++ [55357%N] in
  let w := Sample.world [] [] [] [] in
  let after := chat_with_may Sample.unicode_lower Sample.hexdigest
                             Sample.datetime_str message w in
  fst after = Ok apology /\
  conversations (snd after) = conversations w /\
  user_profile_table (snd after) = user_profile_table w /\
  user_profile (snd after) = user_profile w.
Proof.
  intros message w.
  exact (surrogate_message_is_never_stored Sample.unicode_lower
           Sample.hexdigest Sample.datetime_str message w eq_refl).
Defined.

Lemma no_profile_is_ever_created_witness :
  let w := Sample.unloaded (Sample.world [] [] [] []) in
  let messages := [lit "My boss is my friend"; lit "I love my job"] in
  user_profile (chat_all Sample.unicode_lower Sample.hexdigest
                         Sample.datetime_str messages w) = None /\
  user_profile_table (chat_all Sample.unicode_lower Sample.hexdigest
                               Sample.datetime_str messages w) = [].
Proof.
  intros w messages.
  exact (no_profile_is_ever_created Sample.unicode_lower Sample.hexdigest
           Sample.datetime_str messages w eq_refl).
Defined.

Lemma profile_fields_never_change_witness :
  exists p',
    user_profile
      (chat_all Sample.unicode_lower Sample.hexdigest Sample.datetime_str
                [lit "My boss is my friend"; lit "I love my job"]
                (Sample.world [] [] [] [])) = Some p' /\
    name p' = lit "kim" /\ values p' = [] /\
    conversation_patterns p' = [] /\
    relationship_level p' = 1.
Proof.
  exact (profile_fields_never_change Sample.unicode_lower Sample.hexdigest
           Sample.datetime_str
           [lit "My boss is my friend"; lit "I love my job"]
           (Sample.world [] [] [] []) Sample.profile eq_refl).
Defined.

Lemma chat_with_may_completes_witness :
  let message := lit "I love my job" in
  let reply := lit "It's wonderful to hear the joy in your words! Work can be fulfilling when it aligns with our values. How are you feeling about your current path?" in
  let w := Sample.unloaded (Sample.world [] [] [] []) in
  let after := chat_with_may Sample.unicode_lower Sample.hexdigest
                             Sample.datetime_str message w in
  fst after = Ok reply /\
  List.map may_response (conversations (snd after)) = [reply] /\
  user_profile (snd after) = None /\
  user_profile_table (snd after) = [] /\
  log (snd after) =
    [(INFO, lit "Saved conversation memory: work (importance: 9)")].
Proof.
  intros message reply w.
  pose (g := generate_thoughtful_response Sample.unicode_lower message w).
  pose (ident := match conversation_id Sample.hexdigest Sample.datetime_str
                         message reply (clock (snd g) 0%nat) with
                 | Some i => i
                 | None => []
                 end).
  assert (g = (Ok reply, snd g)) as G
    by (apply run_from_result; vm_compute; reflexivity).
  assert (healthy (snd g)) as H.
  { unfold healthy.
    assert (faults (snd g) = []) as -> by (vm_compute; reflexivity).
    constructor. }
  assert (conversation_id Sample.hexdigest Sample.datetime_str message reply
            (clock (snd g) 0%nat) = Some ident) as I
    by (vm_compute; reflexivity).
  destruct (chat_with_may_completes Sample.unicode_lower Sample.hexdigest
              Sample.datetime_str message reply ident w (snd g)
              G H I (fun F : False => F) eq_refl)
    as (A & C & P & T & L).
  refine (conj A (conj _ (conj P (conj T L)))).
  rewrite C. reflexivity.
Defined.

Lemma loaded_profile_always_gets_the_apology_witness :
  let message := lit "I love my job" in
  let reply := lit "It's wonderful to hear the joy in your words! Work can be fulfilling when it aligns with our values. How are you feeling about your current path?" in
  let w := Sample.world [] [] [] [] in
  let after := chat_with_may Sample.unicode_lower Sample.hexdigest
                             Sample.datetime_str message w in
  fst after = Ok apology /\
  List.map may_response (conversations (snd after)) = [reply] /\
  option_map interests (user_profile (snd after)) =
    Some [lit "work"; lit "relationships"] /\
  user_profile_table (snd after) = [] /\
  log (snd after) =
    [(INFO, lit "Saved conversation memory: work (importance: 9)");
     (ERROR, lit "Error in chat: near " ++ [34%N] ++ lit "values" ++
             [34%N] ++ lit ": syntax error")].
Proof.
  intros message reply w.
  pose (g := generate_thoughtful_response Sample.unicode_lower message w).
  pose (ident := match conversation_id Sample.hexdigest Sample.datetime_str
                         message reply (clock (snd g) 0%nat) with
                 | Some i => i
                 | None => []
                 end).
  assert (g = (Ok reply, snd g)) as G
    by (apply run_from_result; vm_compute; reflexivity).
  assert (healthy (snd g)) as H.
  { unfold healthy.
    assert (faults (snd g) = []) as -> by (vm_compute; reflexivity).
    constructor. }
  assert (conversation_id Sample.hexdigest Sample.datetime_str message reply
            (clock (snd g) 0%nat) = Some ident) as I
    by (vm_compute; reflexivity).
  destruct (loaded_profile_always_gets_the_apology Sample.unicode_lower
              Sample.hexdigest Sample.datetime_str message w Sample.profile
              eq_refl)
    as (A & _ & Stored).
  destruct (Stored reply ident (snd g) G H I (fun F : False => F))
    as (C & _ & P & L).
  refine (conj A (conj _ (conj _ (conj _ L)))).
  - rewrite C. reflexivity.
  - rewrite P. vm_compute. reflexivity.
  - vm_compute. reflexivity.
Defined.



Lemma saved_turn_is_listed_first_witness :
  let message := lit "I love my job" in
  let reply := lit "That sounds really positive! Work can be fulfilling when it aligns with our values. How are you feeling about your current path?" in
  let w := Sample.world [Sample.turn "a1" "family" 9 (Sample.day 1)]
                        [] [] [] in
  let w' := snd (save_conversation Sample.unicode_lower Sample.hexdigest
                   Sample.datetime_str message reply w) in
  exists ident,
    conversation_id Sample.hexdigest Sample.datetime_str message reply
                    (clock w 0%nat) = Some ident /\
    fst (get_memories None 1 w') =
    Ok [[(lit "id", VStr ident);
         (lit "user_message", VStr message);
         (lit "may_response", VStr reply);
         (lit "topic", VStr (lit "work"));
         (lit "sentiment", VStr (lit "positive"));
         (lit "importance", VInt 9);
         (lit "timestamp", VTime (clock w 1%nat))]].
Proof.
  intros message reply w w'.
  assert (save_conversation Sample.unicode_lower Sample.hexdigest
            Sample.datetime_str message reply w = (Ok tt, w')) as S
    by (apply run_from_result; vm_compute; reflexivity).
  assert (healthy w') as H.
  { unfold healthy.
    assert (faults w' = []) as -> by (vm_compute; reflexivity).
    constructor. }
  assert (forall row, In row (conversations w) ->
                      timestamp row < clock w 1%nat) as Old.
  { intros row [<- | []]. vm_compute. reflexivity. }
  exact (saved_turn_is_listed_first Sample.unicode_lower Sample.hexdigest
           Sample.datetime_str message reply w w' S H Old).
Defined.

Lemma find_relevant_memories_pattern_witness :
  let row := Sample.turn "a1" "family" 5 (Sample.day 1) in
  forallb (fun c => negb (Like.wildcard c)) (lit "work") = true /\
  row_matches (lit "work") row =
    (str_eqb (topic row) (lit "work") ||
     Like.like (Like.around (lit "work"))
               (Sql.json_dumps (context_tags row))).
Proof.
  intros row.
  apply (find_relevant_memories_pattern Sample.unicode_lower
           (lit "My boss gave me a new project") (lit "work") row).
  vm_compute. left. reflexivity.
Defined.

Lemma callback_clause_opens_the_reply_witness :
  let rows := [Sample.turn "a1" "family" 5 (Sample.day 9)] in
  let w := Sample.world rows [1 # 10; 9 # 10] [0; 0]%nat [] in
  let reply := lit "This reminds me of when you mentioned family yesterday.  It's wonderful to hear the joy in your words! Family is such a blessing. How has your family been doing?" in
  fst (generate_thoughtful_response Sample.unicode_lower
         (lit "I love my family") w) = Ok reply /\
  exists rest,
    In rest replies_without_callback /\
    reply = lit "This reminds me of when you mentioned family yesterday.  " ++
            rest.
Proof.
  intros rows w reply.
  pose (memory := memory_of_row (Sample.turn "a1" "family" 5 (Sample.day 9))).
  assert (fst (find_relevant_memories Sample.unicode_lower
                 (lit "I love my family") 3 w) = Ok [memory]) as F
    by (vm_compute; reflexivity).
  assert (generate_thoughtful_response Sample.unicode_lower
            (lit "I love my family") w =
          (Ok reply,
           snd (generate_thoughtful_response Sample.unicode_lower
                  (lit "I love my family") w))) as G
    by (apply run_from_result; vm_compute; reflexivity).
  split; [rewrite G; reflexivity|].
  destruct (callback_clause_opens_the_reply Sample.unicode_lower
              (lit "I love my family") w _ reply [memory] F G)
    as (_ & Called & _).
  destruct (Called memory [] eq_refl eq_refl) as (rest & I & E).
  exists rest. split; [exact I|exact E].
Defined.
